(** * Persona-driven document intelligence: relevance ranking and
      extractive summarisation (main.py)

    A shallow embedding of the pipeline of [main.py]:
    query composition, fixed-size chunking, grouping of scored chunks into
    sections, ranking, sentence selection and the assembly of the output.

    Conventions of the embedding.
    - Python [str] is [string]; a character is read as the code point of the
      same number (0..255).
    - A similarity score (a float produced by [cosine_similarity]) is a
      rational number [Q]: the pipeline only compares scores and takes
      maxima, it does no arithmetic on them.  Equality of scores is [Qeq].
    - The embedding model together with [cosine_similarity] is a parameter
      [similarity query text]; [np.argsort] is a parameter [argsort], whose
      order among equal values numpy leaves open.
    - A Python exception is the result [None] of a function into [option].
      A run of [main] is the list of the operations it has done on the file
      system together with its ending, returned or raised.
    - What the run cannot decide itself is part of its inputs: whether the
      directory can be listed and each PDF opened, whether the embedding
      model loads and encodes, whether the file system lets the output
      directory be made and the output file be written.  Paths are POSIX.
    - The insertion-ordered [dict] of sections is an association list. *)

From Stdlib Require Import List String Ascii Arith Bool Lia.
From Stdlib Require Import QArith Qminmax Lqa.
From Stdlib Require Import Sorted Permutation.
From Stdlib Require Import DecimalString.
Import ListNotations.

Local Open Scope string_scope.
Local Open Scope nat_scope.

(** ** Configuration *)

Definition CHUNK_SIZE : nat := 500.
Definition TOP_SECTIONS : nat := 5.
Definition TOP_SENTENCES_FOR_REFINED_TEXT : nat := 3.

(** ** Python string primitives *)

Module PyStr.

(** [str.isspace] on one character, for the code points below 256. *)
Definition is_space (c : ascii) : bool :=
  let n := nat_of_ascii c in
  ((9 <=? n) && (n <=? 13)) || ((28 <=? n) && (n <=? 32))
  || (n =? 133) || (n =? 160).

(** Truth value of a string: [s] is true iff it is not empty. *)
Definition truthy (s : string) : bool :=
  match s with EmptyString => false | String _ _ => true end.

Fixpoint lstrip (s : string) : string :=
  match s with
  | EmptyString => EmptyString
  | String c s' => if is_space c then lstrip s' else s
  end.

Fixpoint rstrip (s : string) : string :=
  match s with
  | EmptyString => EmptyString
  | String c s' =>
      match rstrip s' with
      | EmptyString => if is_space c then EmptyString else String c EmptyString
      | r => String c r
      end
  end.

(** [s.strip()] *)
Definition strip (s : string) : string := rstrip (lstrip s).

(** [s.split(sep)] for a one-character separator. *)
Fixpoint split (sep : ascii) (s : string) : list string :=
  match s with
  | EmptyString => [EmptyString]
  | String c s' =>
      if Ascii.eqb c sep then EmptyString :: split sep s'
      else match split sep s' with
           | [] => [String c EmptyString]
           | piece :: rest => String c piece :: rest
           end
  end.

(** [sep.join(l)] *)
Definition join (sep : string) (l : list string) : string :=
  String.concat sep l.

(** [s[i:i+n]] for [0 <= i]: the slice is cut at the end of [s]. *)
Definition slice (i n : nat) (s : string) : string := substring i n s.

(** [c.lower()] on the ASCII letters. *)
Definition lower_char (c : ascii) : ascii :=
  let n := nat_of_ascii c in
  if (65 <=? n) && (n <=? 90) then ascii_of_nat (n + 32) else c.

Fixpoint lower (s : string) : string :=
  match s with
  | EmptyString => EmptyString
  | String c s' => String (lower_char c) (lower s')
  end.

(** [s.endswith(suffix)] *)
Definition endswith (s suffix : string) : bool :=
  let n := String.length s in
  let m := String.length suffix in
  (m <=? n) && String.eqb (substring (n - m) m s) suffix.

(** [str(n)] for a non-negative integer. *)
Definition of_nat (n : nat) : string :=
  NilZero.string_of_uint (Nat.to_uint n).

(** The contents of [range(0, stop, step)] for [0 < step]:
    [0, step, 2*step, ...] below [stop]. *)
Definition range_step (stop step : nat) : list nat :=
  map (fun k => k * step) (seq 0 ((stop + step - 1) / step)).

End PyStr.

(** [c in s] *)
Fixpoint contains (c : ascii) (s : string) : bool :=
  match s with
  | EmptyString => false
  | String x s' => Ascii.eqb x c || contains c s'
  end.

(** ** Chunking (parse_and_chunk_documents) *)

Record chunk := mkChunk {
  text : string;
  doc_name : string;
  page_num : nat
}.

(** The texts of the chunks of one page: lines 46-51, with the chunk size
    as a parameter. *)
Definition chunk_texts (size : nat) (page_text : string) : list string :=
  if PyStr.truthy (PyStr.strip page_text)
  then map (fun i => PyStr.slice i size page_text)
           (PyStr.range_step (String.length page_text) size)
  else [].

Definition chunk_page (size : nat) (filename : string) (page_no : nat)
    (page_text : string) : list chunk :=
  map (fun t => mkChunk t filename page_no) (chunk_texts size page_text).

(** [filename.lower().endswith('.pdf')] *)
Definition is_pdf (filename : string) : bool :=
  PyStr.endswith (PyStr.lower filename) ".pdf".

Definition chunk_document (size : nat) (filename : string)
    (pages : list string) : list chunk :=
  flat_map (fun p => chunk_page size filename (fst p) (snd p))
           (combine (seq 1 (List.length pages)) pages).

(** The documents directory as the run finds it: [None] if [os.listdir]
    raises; otherwise the file names in the order of the listing, each with
    what the PDF reader makes of the file: the texts of its pages in order,
    or [None] if [fitz.open] or the reading of a page raises.  A file whose
    name does not end in ".pdf" is never opened. *)
Definition directory := option (list (string * option (list string))).

(** The loop over the files, lines 40-56; pages are numbered from 1
    ([enumerate(doc, 1)]).  [None]: a PDF could not be opened. *)
Fixpoint chunk_files (files : list (string * option (list string)))
    : option (list chunk) :=
  match files with
  | [] => Some []
  | (filename, doc) :: rest =>
      if is_pdf filename then
        match doc with
        | None => None
        | Some pages =>
            match chunk_files rest with
            | None => None
            | Some chunks =>
                Some (chunk_document CHUNK_SIZE filename pages ++ chunks)%list
            end
        end
      else chunk_files rest
  end.

Definition parse_and_chunk_documents (docs_dir : directory)
    : option (list chunk) :=
  match docs_dir with
  | None => None
  | Some files => chunk_files files
  end.

(** [os.listdir(docs_dir)] *)
Definition listdir (docs_dir : directory) : option (list string) :=
  option_map (map fst) docs_dir.

(** ** Query composition (generate_intelligent_query) *)

(** A JSON value of the persona object.  [JOther] is a value whose text
    under Python's [format] is not computed here (a number with a fraction,
    an array, an object); it carries that text. *)
Inductive json :=
| JNull
| JBool (b : bool)
| JInt (z : Z)
| JStr (s : string)
| JOther (shown : string).

Definition persona_t := list (string * json).

(** [d.get(k)]: the value bound to [k], or Python's [None]. *)
Definition dict_get (k : string) (d : persona_t) : option json :=
  option_map snd (find (fun e => String.eqb (fst e) k) d).

(** What an f-string writes for the result of [d.get(k)]. *)
Definition py_format (v : option json) : string :=
  match v with
  | None => "None"
  | Some JNull => "None"
  | Some (JBool true) => "True"
  | Some (JBool false) => "False"
  | Some (JInt z) => NilZero.string_of_int (Z.to_int z)
  | Some (JStr s) => s
  | Some (JOther shown) => shown
  end.

(** What [json.load] returns for the persona file: an object with its
    fields, or a value that is not an object (an array, a string, a number,
    [true], [false] or [null]), which has no method [get]. *)
Inductive loaded_json :=
| JObject (fields : persona_t)
| JNotObject.

(** Line 35; [None]: [persona.get] raises [AttributeError]. *)
Definition generate_intelligent_query (persona : loaded_json) (job : string)
    : option string :=
  match persona with
  | JObject fields =>
      Some ("As a " ++ py_format (dict_get "role" fields)
            ++ " with expertise in " ++ py_format (dict_get "expertise" fields)
            ++ ", I need to " ++ job)
  | JNotObject => None
  end.

(** ** Scores *)

Definition Qltb (a b : Q) : bool := negb (Qle_bool b a).

(** [max(a, b)]: Python returns the first argument unless the second is
    strictly greater. *)
Definition py_max (a b : Q) : Q := if Qltb a b then b else a.

Record scored_chunk := mkScored {
  chunk_of : chunk;
  score : Q
}.

(** ** Stable sorting *)

Section StableSort.
Context {A : Type}.
(** [after x y]: [x] has to come strictly later than [y]. *)
Variable after : A -> A -> bool.

Fixpoint insert (x : A) (l : list A) : list A :=
  match l with
  | [] => [x]
  | y :: l' => if after x y then y :: insert x l' else x :: l
  end.

(** The only stable arrangement of [l]: an element is put in front of
    the elements after it in [l] that it does not have to follow. *)
Fixpoint stable_sort (l : list A) : list A :=
  match l with
  | [] => []
  | x :: l' => insert x (stable_sort l')
  end.

(** [tag x]: the position of [x] in the list that is sorted. *)
Variable tag : A -> nat.

(** [x] is in front of [y] in the sorted list: [y] has to follow [x], or
    neither has to follow the other and [x] was first. *)
Definition in_front (x y : A) : Prop :=
  after y x = true \/
  (after x y = false /\ after y x = false /\ tag x < tag y).

End StableSort.

(** [sorted(l, key=key, reverse=True)]: Python's sort is stable, also with
    [reverse=True], so items with equal keys keep their order in [l]. *)
Definition sorted_reverse {A : Type} (key : A -> Q) (l : list A) : list A :=
  stable_sort (fun x y => Qltb (key x) (key y)) l.

(** [a.sort()] on an array of indices. *)
Definition sort_indices (l : list nat) : list nat :=
  stable_sort (fun x y => y <? x) l.

(** ** Sections (main, step 6) *)

Record section := mkSection {
  sec_text : string;
  max_score : Q
}.

Definition key := (string * nat)%type.

Definition key_eqb (a b : key) : bool :=
  String.eqb (fst a) (fst b) && Nat.eqb (snd a) (snd b).

Definition sections_t := list (key * section).

(** [k in sections] *)
Definition has_key (k : key) (sections : sections_t) : bool :=
  existsb (fun e => key_eqb (fst e) k) sections.

(** [sections[k] = f(sections[k])] for a key that is present. *)
Fixpoint update (k : key) (f : section -> section) (sections : sections_t)
    : sections_t :=
  match sections with
  | [] => []
  | (k', s) :: rest =>
      if key_eqb k' k then (k', f s) :: rest
      else (k', s) :: update k f rest
  end.

Definition chunk_key (c : scored_chunk) : key :=
  (doc_name (chunk_of c), page_num (chunk_of c)).

(** The body of the grouping loop, lines 118-122. *)
Definition group_step (sections : sections_t) (c : scored_chunk)
    : sections_t :=
  let k := chunk_key c in
  let sections0 :=
    if has_key k sections then sections
    else (sections ++ [(k, mkSection "" 0%Q)])%list in
  let sections1 :=
    update k (fun s => mkSection (sec_text s ++ (text (chunk_of c) ++ " "))
                                 (max_score s)) sections0 in
  update k (fun s => mkSection (sec_text s) (py_max (max_score s) (score c)))
         sections1.

Definition group_sections (chunks : list scored_chunk) : sections_t :=
  fold_left group_step chunks [].

Definition sort_sections (sections : sections_t) : sections_t :=
  sorted_reverse (fun item => max_score (snd item)) sections.

(** Position of the first chunk with key [k] (the number of chunks if there
    is none): when the key [k] was first seen while grouping. *)
Fixpoint first_seen (k : key) (chunks : list scored_chunk) : nat :=
  match chunks with
  | [] => 0
  | c :: rest => if key_eqb (chunk_key c) k then 0 else S (first_seen k rest)
  end.

(** The scores of the chunks of section [k], in chunk order. *)
Definition scores_of (k : key) (chunks : list scored_chunk) : list Q :=
  map score (filter (fun c => key_eqb (chunk_key c) k) chunks).

(** The greatest element of a list of scores, [None] for the empty list. *)
Fixpoint maximum (l : list Q) : option Q :=
  match l with
  | [] => None
  | a :: l' => match maximum l' with
               | None => Some a
               | Some m => Some (Qmax a m)
               end
  end.

(** ** Extractive summary (generate_refined_text) *)

(** [[s.strip() for s in full_text.split('.') if s.strip()]] *)
Definition sentences_of (full_text : string) : list string :=
  map PyStr.strip
      (filter (fun s => PyStr.truthy (PyStr.strip s))
              (PyStr.split "." full_text)).

(** [a[-n:]] *)
Definition last_n {A : Type} (n : nat) (l : list A) : list A :=
  if n =? 0 then l else skipn (List.length l - n) l.

(** [[l[i] for i in indices]]; an index out of range raises. *)
Fixpoint pick {A : Type} (l : list A) (indices : list nat)
    : option (list A) :=
  match indices with
  | [] => Some []
  | i :: rest =>
      match nth_error l i, pick l rest with
      | Some x, Some xs => Some (x :: xs)
      | _, _ => None
      end
  end.

(** What [np.argsort] promises of its result [order] for the values
    [values]: the indices [0 .. len-1], each once, such that the values
    ascend along them.  Nothing is promised on the order of equal values. *)
Definition ascending_along (values : list Q) (order : list nat) : bool :=
  forallb (fun p => Qle_bool (nth (fst p) values 0%Q) (nth (snd p) values 0%Q))
          (combine order (tl order)).

Fixpoint indices_eqb (a b : list nat) : bool :=
  match a, b with
  | [], [] => true
  | x :: a', y :: b' => (x =? y) && indices_eqb a' b'
  | _, _ => false
  end.

Definition is_argsort (values : list Q) (order : list nat) : bool :=
  indices_eqb (sort_indices order) (seq 0 (List.length values))
  && ascending_along values order.

(** A stable argsort, one function that meets [is_argsort]. *)
Definition argsort_stable (values : list Q) : list nat :=
  map fst
      (stable_sort (fun x y => Qltb (snd y) (snd x))
                   (combine (seq 0 (List.length values)) values)).

Section Summary.
(** [sim s]: the cosine similarity of the embedding of [s] and the query
    embedding. *)
Variable sim : string -> Q.
Variable argsort : list Q -> list nat.

(** The indices [top_indices] of line 73-74. *)
Definition top_indices (sentences : list string) : list nat :=
  sort_indices
    (last_n TOP_SENTENCES_FOR_REFINED_TEXT (argsort (map sim sentences))).

Definition generate_refined_text (full_text : string) : option string :=
  let sentences := sentences_of full_text in
  match sentences with
  | [] => Some ""
  | _ :: _ =>
      match pick sentences (top_indices sentences) with
      | None => None
      | Some picked =>
          let refined_text := PyStr.join " " picked in
          Some (if PyStr.truthy refined_text then refined_text ++ "." else "")
      end
  end.
End Summary.

(** ** Output (main, steps 7 and 8) *)

Record extracted_section := mkExtracted {
  document : string;
  page_number : nat;
  section_title : string;
  importance_rank : nat
}.

Record subsection_analysis := mkAnalysis {
  a_document : string;
  a_page_number : nat;
  refined_text : string
}.

Record metadata := mkMetadata {
  input_documents : list string;
  m_persona : loaded_json;
  job_to_be_done : string;
  processing_timestamp : string
}.

Record output := mkOutput {
  Metadata : metadata;
  Extracted_Section : list extracted_section;
  Sub_section_Analysis : list subsection_analysis
}.

(** What a run does to the file system. *)
Inductive fs_event :=
| MakeDirs (dir : string)
| WriteJson (path : string) (content : output).

(** How a run ends. *)
Inductive ending :=
| Returned
| Raised.

(** A run: the operations it has done on the file system, in order, and
    how it ended. *)
Record run := mkRun {
  run_events : list fs_event;
  run_ending : ending
}.

(** [os.path.dirname] (POSIX): [p] up to its last slash, without the
    trailing slashes unless there is nothing else. *)
Module PyPath.

Fixpoint upto_last_slash (p : string) : string :=
  match p with
  | EmptyString => EmptyString
  | String c p' =>
      match upto_last_slash p' with
      | EmptyString => if Ascii.eqb c "/" then String c EmptyString
                       else EmptyString
      | h => String c h
      end
  end.

Fixpoint all_slashes (p : string) : bool :=
  match p with
  | EmptyString => true
  | String c p' => Ascii.eqb c "/" && all_slashes p'
  end.

Fixpoint rstrip_slashes (p : string) : string :=
  match p with
  | EmptyString => EmptyString
  | String c p' =>
      match rstrip_slashes p' with
      | EmptyString => if Ascii.eqb c "/" then EmptyString
                       else String c EmptyString
      | r => String c r
      end
  end.

Definition dirname (p : string) : string :=
  let head := upto_last_slash p in
  if PyStr.truthy head && negb (all_slashes head)
  then rstrip_slashes head else head.

(** [os.path.basename] (POSIX): what follows the last slash of [p]. *)
Fixpoint basename (p : string) : string :=
  match p with
  | EmptyString => EmptyString
  | String c p' =>
      if contains "/" p' then basename p'
      else if Ascii.eqb c "/" then p' else p
  end.

(** [p] has no NUL character; with one, every call of the operating
    system on [p] raises [ValueError]. *)
Definition no_nul (p : string) : bool := negb (contains Ascii.zero p).

(** [p] can name a file to write: on no file system does [open(p, 'w')]
    succeed when the last component of [p] is empty ([p] is empty or ends
    with a slash), "." or "..". *)
Definition names_a_file (p : string) : bool :=
  no_nul p
  && negb (String.eqb (basename p) "")
  && negb (String.eqb (basename p) ".")
  && negb (String.eqb (basename p) "..").

End PyPath.

(** What the surroundings of a run let it do. *)
Record world := mkWorld {
  (** [SentenceTransformer(MODEL_NAME)] returns a model. *)
  model_loads : bool;
  (** The calls of [model.encode] return (lines 105, 107 and 67). *)
  model_encodes : bool;
  (** The file system lets [os.makedirs(d, exist_ok=True)] succeed. *)
  makedirs_ok : string -> bool;
  (** The file system lets [open(p, 'w')] and the writing succeed. *)
  open_ok : string -> bool
}.

(** [os.makedirs(d, exist_ok=True)] returns. *)
Definition can_makedirs (w : world) (d : string) : bool :=
  PyPath.no_nul d && makedirs_ok w d.

(** [open(p, 'w')] and [json.dump] return. *)
Definition can_write (w : world) (p : string) : bool :=
  PyPath.names_a_file p && open_ok w p.

(** Step 8, lines 160-165: the directory of the output file is made if the
    path has one, then the file is written. *)
Definition save_output (w : world) (output_file : string) (out : output)
    : run :=
  let output_dir := PyPath.dirname output_file in
  if PyStr.truthy output_dir && negb (can_makedirs w output_dir)
  then mkRun [] Raised
  else
    let made := if PyStr.truthy output_dir then [MakeDirs output_dir]
                else [] in
    if can_write w output_file
    then mkRun (made ++ [WriteJson output_file out]) Returned
    else mkRun made Raised.

(** The inputs of a run: the persona and the job as [load_inputs] returns
    them, the documents directory, the output path, the clock reading
    [start_time.isoformat()], and the surroundings. *)
Record inputs := mkInputs {
  persona : loaded_json;
  job : string;
  docs_dir : directory;
  output_file : string;
  start_time : string;
  surroundings : world
}.

Section Pipeline.
(** [similarity query t]: the cosine similarity of the embeddings of the
    query and of the text [t]. *)
Variable similarity : string -> string -> Q.
Variable argsort : list Q -> list nat.

(** Lines 105-113. *)
Definition score_chunks (query : string) (chunks : list chunk)
    : list scored_chunk :=
  map (fun c => mkScored c (similarity query (text c))) chunks.

(** [sorted_sections] of line 125. *)
Definition sorted_sections (query : string) (chunks : list chunk)
    : sections_t :=
  sort_sections (group_sections (score_chunks query chunks)).

(** [enumerate(sorted_sections[:TOP_SECTIONS], 1)] *)
Definition ranked (sections : sections_t) : list (nat * (key * section)) :=
  let top := firstn TOP_SECTIONS sections in
  combine (seq 1 (List.length top)) top.

(** The body of the output loop, lines 141-157; [None] once the summary
    of a section has raised. *)
Definition output_step (query : string)
    (acc : option (list extracted_section * list subsection_analysis))
    (item : nat * (key * section))
    : option (list extracted_section * list subsection_analysis) :=
  match acc with
  | None => None
  | Some (extracted, analysis) =>
      let i := fst item in
      let doc := fst (fst (snd item)) in
      let page := snd (fst (snd item)) in
      let data := snd (snd item) in
      let extracted' :=
        (extracted ++ [mkExtracted doc page
                         ("Content from page " ++ PyStr.of_nat page) i])%list in
      match generate_refined_text (similarity query) argsort (sec_text data)
      with
      | None => None
      | Some refined =>
          Some (extracted', (analysis ++ [mkAnalysis doc page refined])%list)
      end
  end.

(** [main] after the inputs are loaded.  Messages printed to the terminal
    are left out. *)
Definition main (inp : inputs) : run :=
  match generate_intelligent_query (persona inp) (job inp) with
  | None => mkRun [] Raised                                   (* line 90 *)
  | Some intelligent_query =>
      if negb (model_loads (surroundings inp))
      then mkRun [] Raised                                    (* line 94 *)
      else
        match parse_and_chunk_documents (docs_dir inp) with
        | None => mkRun [] Raised                             (* line 98 *)
        | Some [] => mkRun [] Returned                        (* line 101 *)
        | Some (c :: cs) =>
            let chunks := c :: cs in
            if negb (model_encodes (surroundings inp))
            then mkRun [] Raised                              (* line 105 *)
            else
              let sections := sorted_sections intelligent_query chunks in
              match listdir (docs_dir inp) with
              | None => mkRun [] Raised                       (* line 130 *)
              | Some input_documents =>
                  match fold_left (output_step intelligent_query)
                                  (ranked sections) (Some ([], []))
                  with
                  | None => mkRun [] Raised                   (* line 152 *)
                  | Some (extracted, analysis) =>
                      save_output (surroundings inp) (output_file inp)
                        (mkOutput
                           (mkMetadata input_documents (persona inp)
                                       (job inp) (start_time inp))
                           extracted analysis)
                  end
              end
        end
  end.
End Pipeline.

(** The outputs written by a run. *)
Definition written (events : list fs_event) : list (string * output) :=
  flat_map (fun e => match e with
                     | WriteJson p o => [(p, o)]
                     | MakeDirs _ => []
                     end) events.

(** The section an entry of the output is about. *)
Definition extracted_key (e : extracted_section) : key :=
  (document e, page_number e).

Definition analysis_key (a : subsection_analysis) : key :=
  (a_document a, a_page_number a).

(** ** Loading the inputs (load_inputs) *)

Section Loading.
(** The value type of [json.load], which is not modelled. *)
Context {value : Type}.
(** [read path]: the text of the file at [path]; [None] if [open] raises. *)
Variable read : string -> option string.
(** [json_load content]: [json.load]; [None] if it raises. *)
Variable json_load : string -> option value.

(** Lines 27-31: the persona file is read and parsed first, then the job
    file is read and stripped. *)
Definition load_inputs (persona_path job_path : string)
    : option (value * string) :=
  match read persona_path with
  | None => None
  | Some persona_text =>
      match json_load persona_text with
      | None => None
      | Some persona =>
          match read job_path with
          | None => None
          | Some job_text => Some (persona, PyStr.strip job_text)
          end
      end
  end.
End Loading.

(** ** Shapes of strings *)

(** [s] starts with white space. *)
Definition head_space (s : string) : bool :=
  match s with
  | EmptyString => false
  | String c _ => PyStr.is_space c
  end.

(** [s] ends with white space. *)
Fixpoint tail_space (s : string) : bool :=
  match s with
  | EmptyString => false
  | String c EmptyString => PyStr.is_space c
  | String _ s' => tail_space s'
  end.

(** [s] has no white space at either end. *)
Definition trimmed (s : string) : bool :=
  negb (head_space s) && negb (tail_space s).

(** A page without text for the chunker: [not text.strip()]. *)
Definition blank (page_text : string) : bool :=
  negb (PyStr.truthy (PyStr.strip page_text)).

(** [e] is a [MakeDirs] event. *)
Definition is_makedirs (e : fs_event) : bool :=
  match e with
  | MakeDirs _ => true
  | WriteJson _ _ => false
  end.

(** ** Sample data *)

(** A file system with a persona file and a job file, and a JSON reader
    that knows the text of the persona file. *)
Definition sample_read (path : string) : option string :=
  if String.eqb path "persona.json" then Some "{}"
  else if String.eqb path "job.txt"
       then Some "  summarize quarterly risk  "
       else None.

Definition sample_json_load (content : string) : option loaded_json :=
  if String.eqb content "{}" then Some (JObject []) else None.

(** An argsort that puts equal values in the reverse of their order. *)
Definition argsort_ties_reversed (values : list Q) : list nat :=
  map fst
      (stable_sort (fun x y => Qltb (snd y) (snd x))
                   (rev (combine (seq 0 (List.length values)) values))).

(** Similarities with [S3 > S1 > S4 > S2]. *)
Definition sample_sim (s : string) : Q :=
  if String.eqb s "S1" then 3 # 4
  else if String.eqb s "S2" then 1 # 10
  else if String.eqb s "S3" then 9 # 10
  else if String.eqb s "S4" then 1 # 2
  else 0.

(** Surroundings in which nothing fails. *)
Definition sample_world : world :=
  mkWorld true true (fun _ => true) (fun _ => true).

(** A directory with a file that is not a PDF and a PDF with a blank page. *)
Definition sample_blank_inputs : inputs :=
  mkInputs (JObject [("role", JStr "Analyst")]) "summarize quarterly risk"
           (Some [("notes.txt", None); ("a.pdf", Some ["  "])])
           "out/result.json" "2024-01-01T00:00:00" sample_world.

(** Two PDFs and a file that is not one, seven pages with text. *)
Definition sample_files : list (string * option (list string)) :=
  [("a.pdf", Some ["S1. S2. S3. S4."; "  "; "S3. S1"; "S2"]);
   ("notes.txt", None);
   ("B.PDF", Some ["S4. S4"; "S1"; "S3. S2"; "S4"])].

Definition sample_inputs : inputs :=
  mkInputs (JObject [("role", JStr "Analyst"); ("expertise", JStr "finance")])
           "summarize quarterly risk" (Some sample_files)
           "out/result.json" "2024-01-01T00:00:00" sample_world.

(** The inputs of [sample_inputs] with another output path. *)
Definition sample_inputs_to (path : string) : inputs :=
  mkInputs (persona sample_inputs) (job sample_inputs)
           (docs_dir sample_inputs) path (start_time sample_inputs)
           sample_world.

(** The inputs of [sample_inputs] with a PDF that cannot be opened. *)
Definition sample_unreadable_inputs : inputs :=
  mkInputs (persona sample_inputs) (job sample_inputs)
           (Some (sample_files ++ [("broken.pdf", None)])%list)
           "out/result.json" (start_time sample_inputs) sample_world.

(** The inputs of [sample_inputs] with a persona file that holds an
    array. *)
Definition sample_array_inputs : inputs :=
  mkInputs JNotObject (job sample_inputs) (docs_dir sample_inputs)
           "out/result.json" (start_time sample_inputs) sample_world.

(** A similarity that looks at the first sentence of the text only. *)
Definition sample_similarity (query t : string) : Q :=
  sample_sim (substring 0 2 t).


(** The chunks of the directory of [sample_inputs]. *)
Definition sample_chunks : list chunk :=
  Eval vm_compute in
    match parse_and_chunk_documents (docs_dir sample_inputs) with
    | Some chunks => chunks
    | None => []
    end.

(** What the run on [sample_inputs] does, and the output it writes. *)
Definition sample_events : list fs_event :=
  Eval vm_compute in
    run_events (main sample_similarity argsort_stable sample_inputs).

Definition empty_output : output :=
  mkOutput (mkMetadata [] JNotObject "" "") [] [].

Definition sample_output : output :=
  Eval vm_compute in nth 0 (map snd (written sample_events)) empty_output.

(** * Properties *)

(** ** Strings *)

Lemma append_empty_r (s : string) : s ++ "" = s.
Proof. induction s as [|c s IH]; simpl; [reflexivity | now rewrite IH]. Qed.

Lemma append_assoc (a b c : string) : (a ++ b) ++ c = a ++ (b ++ c).
Proof. induction a as [|x a IH]; simpl; [reflexivity | now rewrite IH]. Qed.

Lemma length_append (a b : string) :
  String.length (a ++ b) = String.length a + String.length b.
Proof. induction a as [|x a IH]; simpl; [reflexivity | now rewrite IH]. Qed.

Lemma substring_length_le (i n : nat) (s : string) :
  String.length (substring i n s) <= n.
Proof.
  revert i n; induction s as [|c s IH]; intros i n.
  - destruct i, n; simpl; lia.
  - destruct i as [|i].
    + destruct n as [|n]; simpl; [lia|]. specialize (IH 0 n). lia.
    + simpl. apply IH.
Qed.

Lemma substring_whole (n : nat) (s : string) :
  String.length s <= n -> substring 0 n s = s.
Proof.
  revert n; induction s as [|c s IH]; intros n Hn.
  - now destruct n.
  - destruct n as [|n]; simpl in *; [lia|]. rewrite IH by lia. reflexivity.
Qed.

Lemma substring_none (i : nat) (s : string) : substring i 0 s = "".
Proof.
  revert i; induction s as [|c s IH]; intros [|i]; simpl; auto.
Qed.

(** Two adjacent slices make one slice. *)
Lemma substring_adjacent (i n m : nat) (s : string) :
  substring i n s ++ substring (i + n) m s = substring i (n + m) s.
Proof.
  revert i n; induction s as [|c s IH]; intros i n.
  - destruct i, n, m; reflexivity.
  - destruct i as [|i].
    + destruct n as [|n]; simpl; [reflexivity|].
      f_equal. apply (IH 0 n).
    + simpl. apply IH.
Qed.

Lemma concat_empty_cons (x : string) (l : list string) :
  String.concat "" (x :: l) = x ++ String.concat "" l.
Proof.
  destruct l as [|y l]; simpl; [now rewrite append_empty_r | reflexivity].
Qed.

(** ** Chunking *)

Lemma range_step_covers (stop step : nat) :
  0 < step -> stop <= ((stop + step - 1) / step) * step.
Proof.
  intros Hs.
  pose proof (Nat.div_mod (stop + step - 1) step ltac:(lia)) as E.
  pose proof (Nat.mod_upper_bound (stop + step - 1) step ltac:(lia)) as B.
  remember ((stop + step - 1) / step) as q eqn:Eq.
  remember ((stop + step - 1) mod step) as r eqn:Er.
  rewrite (Nat.mul_comm q step). lia.
Qed.

Lemma concat_slices (size : nat) (s : string) (k a : nat) :
  String.concat ""
    (map (fun i => PyStr.slice i size s) (map (fun j => j * size) (seq a k)))
  = substring (a * size) (k * size) s.
Proof.
  revert a; induction k as [|k IH]; intros a.
  - simpl. now rewrite substring_none.
  - cbn [seq map]. rewrite concat_empty_cons, IH. unfold PyStr.slice.
    replace (S a * size) with (a * size + size) by lia.
    rewrite substring_adjacent. f_equal.
Qed.

Lemma chunk_texts_concat (size : nat) (page_text : string) :
  0 < size ->
  PyStr.truthy (PyStr.strip page_text) = true ->
  String.concat "" (chunk_texts size page_text) = page_text.
Proof.
  intros Hs Ht. unfold chunk_texts, PyStr.range_step. rewrite Ht.
  rewrite concat_slices. simpl.
  apply substring_whole, range_step_covers, Hs.
Qed.

Lemma chunk_texts_bound (size : nat) (page_text : string) :
  Forall (fun t => String.length t <= size) (chunk_texts size page_text).
Proof.
  unfold chunk_texts. destruct (PyStr.truthy _); [|constructor].
  apply Forall_forall. intros t Ht. apply in_map_iff in Ht.
  destruct Ht as [i [<- _]]. apply substring_length_le.
Qed.

Lemma chunk_page_texts (size : nat) (f : string) (p : nat) (t : string) :
  map text (chunk_page size f p t) = chunk_texts size t.
Proof.
  unfold chunk_page. rewrite map_map. simpl. apply map_id.
Qed.

(** ** Stable sorting *)

Section StableSortFacts.
Context {A : Type}.
Variable after : A -> A -> bool.
Hypothesis after_asym : forall x y, after x y = true -> after y x = false.
Hypothesis after_trans :
  forall x y z, after x y = false -> after y z = false -> after x z = false.
(** [tag x]: the position of [x] in the list that is sorted. *)
Variable tag : A -> nat.


Lemma insert_perm (x : A) (l : list A) :
  Permutation (insert after x l) (x :: l).
Proof.
  induction l as [|y l IH]; simpl; [reflexivity|].
  destruct (after x y); [|reflexivity].
  rewrite IH. apply perm_swap.
Qed.

Lemma stable_sort_perm (l : list A) : Permutation (stable_sort after l) l.
Proof.
  induction l as [|x l IH]; simpl; [reflexivity|].
  rewrite insert_perm. now apply perm_skip.
Qed.

Lemma in_front_not_after (x y : A) : in_front after tag x y -> after x y = false.
Proof. intros [H | [H _]]; [now apply after_asym | exact H]. Qed.

Lemma insert_sorted (x : A) (l : list A) :
  StronglySorted (in_front after tag) l ->
  Forall (fun y => tag x < tag y) l ->
  StronglySorted (in_front after tag) (insert after x l).
Proof.
  induction l as [|y l IH]; intros Hs Ht; simpl.
  - repeat constructor.
  - inversion Hs as [|? ? Hs' Hy]; subst.
    inversion Ht as [|? ? Hty Htl]; subst.
    destruct (after x y) eqn:Exy.
    + constructor; [now apply IH|].
      rewrite (insert_perm x l). constructor; [now left | exact Hy].
    + constructor; [exact Hs|].
      assert (Hall : Forall (fun z => after x z = false) (y :: l)).
      { constructor; [exact Exy|].
        rewrite Forall_forall in Hy |- *. intros z Hz.
        apply (after_trans x y z Exy), in_front_not_after, Hy, Hz. }
      rewrite Forall_forall in Hall, Ht |- *. intros z Hz.
      destruct (after z x) eqn:Ezx; [now left|].
      right. repeat split; auto.
Qed.

(** The sort is stable: elements that need not follow one another keep
    the order they had. *)
Lemma stable_sort_sorted (l : list A) :
  StronglySorted (fun x y => tag x < tag y) l ->
  StronglySorted (in_front after tag) (stable_sort after l).
Proof.
  induction l as [|x l IH]; intros Hs; simpl; [constructor|].
  inversion Hs as [|? ? Hs' Hx]; subst.
  apply insert_sorted; [now apply IH|].
  now rewrite (stable_sort_perm l).
Qed.

End StableSortFacts.

(** ** Scores *)

Lemma Qltb_lt (a b : Q) : Qltb a b = true <-> (a < b)%Q.
Proof.
  unfold Qltb. rewrite negb_true_iff. split; intros H.
  - apply Qnot_le_lt. intros Hle. apply Qle_bool_iff in Hle. congruence.
  - destruct (Qle_bool b a) eqn:E; [|reflexivity].
    apply Qle_bool_iff in E. lra.
Qed.

Lemma Qltb_ge (a b : Q) : Qltb a b = false <-> (b <= a)%Q.
Proof.
  unfold Qltb. rewrite negb_false_iff. apply Qle_bool_iff.
Qed.

Lemma py_max_ge_l (a b : Q) : (a <= py_max a b)%Q.
Proof.
  unfold py_max. destruct (Qltb a b) eqn:E; [|lra].
  apply Qltb_lt in E. lra.
Qed.

Lemma py_max_ge_r (a b : Q) : (b <= py_max a b)%Q.
Proof.
  unfold py_max. destruct (Qltb a b) eqn:E; [lra|].
  now apply Qltb_ge in E.
Qed.

Lemma py_max_cases (a b : Q) : py_max a b = a \/ py_max a b = b.
Proof. unfold py_max. destruct (Qltb a b); auto. Qed.

(** ** Grouping *)

Lemma key_eqb_eq (a b : key) : key_eqb a b = true <-> a = b.
Proof.
  destruct a as [d p], b as [d' p']. unfold key_eqb. simpl.
  rewrite andb_true_iff, String.eqb_eq, Nat.eqb_eq.
  split; [intros [-> ->]; reflexivity | intros E; inversion E; auto].
Qed.

Lemma key_eqb_neq (a b : key) : key_eqb a b = false <-> a <> b.
Proof.
  rewrite <- key_eqb_eq. destruct (key_eqb a b); split; congruence.
Qed.

Lemma has_key_In (k : key) (s : sections_t) :
  has_key k s = true <-> In k (map fst s).
Proof.
  unfold has_key. rewrite existsb_exists, in_map_iff.
  split; intros [e [H1 H2]]; exists e.
  - apply key_eqb_eq in H2. auto.
  - split; [exact H2 | now apply key_eqb_eq].
Qed.

Lemma update_keys (k : key) (f : section -> section) (s : sections_t) :
  map fst (update k f s) = map fst s.
Proof.
  induction s as [|[k' x] s IH]; simpl; [reflexivity|].
  destruct (key_eqb k' k); simpl; [reflexivity | now rewrite IH].
Qed.

Lemma group_step_keys (s : sections_t) (c : scored_chunk) :
  map fst (group_step s c)
  = if has_key (chunk_key c) s then map fst s
    else (map fst s ++ [chunk_key c])%list.
Proof.
  unfold group_step. rewrite !update_keys.
  destruct (has_key (chunk_key c) s); [reflexivity|].
  now rewrite map_app.
Qed.

Lemma group_sections_snoc (cs : list scored_chunk) (c : scored_chunk) :
  group_sections (cs ++ [c]) = group_step (group_sections cs) c.
Proof. unfold group_sections. now rewrite fold_left_app. Qed.

Lemma first_seen_le (k : key) (cs : list scored_chunk) :
  first_seen k cs <= List.length cs.
Proof.
  induction cs as [|c cs IH]; simpl; [lia|].
  destruct (key_eqb (chunk_key c) k); lia.
Qed.

Lemma first_seen_snoc (k : key) (cs : list scored_chunk) (c : scored_chunk) :
  first_seen k (cs ++ [c])
  = if first_seen k cs <? List.length cs then first_seen k cs
    else if key_eqb (chunk_key c) k then List.length cs
         else S (List.length cs).
Proof.
  induction cs as [|c0 cs IH]; simpl.
  - destruct (key_eqb (chunk_key c) k); reflexivity.
  - destruct (key_eqb (chunk_key c0) k); [reflexivity|].
    rewrite IH. change (S ?a <? S ?b) with (a <? b).
    destruct (first_seen k cs <? List.length cs); [reflexivity|].
    destruct (key_eqb (chunk_key c) k); reflexivity.
Qed.

(** The keys of the sections are the keys of the chunks. *)
Lemma group_sections_keys (cs : list scored_chunk) (k : key) :
  In k (map fst (group_sections cs)) <-> first_seen k cs < List.length cs.
Proof.
  revert k. induction cs as [|c cs IH] using rev_ind; intros k.
  - simpl. split; [tauto | lia].
  - rewrite group_sections_snoc, group_step_keys, first_seen_snoc.
    rewrite length_app. simpl.
    pose proof (first_seen_le k cs) as Hle.
    destruct (has_key (chunk_key c) (group_sections cs)) eqn:Eh.
    + apply has_key_In in Eh.
      destruct (first_seen k cs <? List.length cs) eqn:El.
      * apply Nat.ltb_lt in El. rewrite IH. lia.
      * apply Nat.ltb_ge in El. rewrite IH.
        destruct (key_eqb (chunk_key c) k) eqn:Ek; [|lia].
        apply key_eqb_eq in Ek. subst k.
        apply IH in Eh. lia.
    + rewrite in_app_iff, IH. simpl.
      destruct (first_seen k cs <? List.length cs) eqn:El.
      * apply Nat.ltb_lt in El. lia.
      * apply Nat.ltb_ge in El.
        destruct (key_eqb (chunk_key c) k) eqn:Ek.
        -- apply key_eqb_eq in Ek. split; [lia | auto].
        -- apply key_eqb_neq in Ek. split; [|lia].
           intros [H | [H | []]]; [lia | contradiction].
Qed.

Lemma StronglySorted_snoc {A : Type} (R : A -> A -> Prop) (l : list A) (x : A) :
  StronglySorted R l -> Forall (fun a => R a x) l ->
  StronglySorted R (l ++ [x]).
Proof.
  induction l as [|a l IH]; intros Hs Hx; simpl.
  - repeat constructor.
  - inversion Hs; subst. inversion Hx; subst.
    constructor; [now apply IH|].
    apply Forall_app. split; [assumption | now constructor].
Qed.

Lemma StronglySorted_impl_in {A : Type} (R R' : A -> A -> Prop) (l : list A) :
  (forall a b, In a l -> In b l -> R a b -> R' a b) ->
  StronglySorted R l -> StronglySorted R' l.
Proof.
  induction l as [|a l IH]; intros Himp Hs; [constructor|].
  inversion Hs as [|? ? Hs' Ha]; subst. constructor.
  - apply IH; [|exact Hs']. intros x y Hx Hy. apply Himp; now right.
  - rewrite Forall_forall in Ha |- *. intros b Hb.
    apply Himp; [now left | now right | now apply Ha].
Qed.

Lemma StronglySorted_of_map {A B : Type} (f : A -> B) (R : B -> B -> Prop)
    (l : list A) :
  StronglySorted R (map f l) ->
  StronglySorted (fun a b => R (f a) (f b)) l.
Proof.
  induction l as [|a l IH]; simpl; intros Hs; [constructor|].
  inversion Hs as [|? ? Hs' Ha]; subst. constructor; [now apply IH|].
  rewrite Forall_forall in Ha |- *. intros b Hb. apply Ha, in_map, Hb.
Qed.

(** The sections are held in the order in which their keys were first
    seen. *)
Lemma group_sections_order (cs : list scored_chunk) :
  StronglySorted (fun a b => first_seen a cs < first_seen b cs)
                 (map fst (group_sections cs)).
Proof.
  induction cs as [|c cs IH] using rev_ind; [constructor|].
  rewrite group_sections_snoc, group_step_keys.
  assert (Hold : forall a, In a (map fst (group_sections cs)) ->
                 first_seen a (cs ++ [c]) = first_seen a cs
                 /\ first_seen a cs < List.length cs).
  { intros a Ha. apply group_sections_keys in Ha.
    rewrite first_seen_snoc. apply Nat.ltb_lt in Ha as Hb. now rewrite Hb. }
  assert (Hs : StronglySorted
                 (fun a b => first_seen a (cs ++ [c]) < first_seen b (cs ++ [c]))
                 (map fst (group_sections cs))).
  { revert IH. apply StronglySorted_impl_in. intros a b Ha Hb.
    destruct (Hold a Ha) as [-> _], (Hold b Hb) as [-> _]. auto. }
  destruct (has_key (chunk_key c) (group_sections cs)) eqn:Eh; [exact Hs|].
  apply StronglySorted_snoc; [exact Hs|].
  apply Forall_forall. intros a Ha. destruct (Hold a Ha) as [-> Hlt].
  assert (Hn : ~ In (chunk_key c) (map fst (group_sections cs))).
  { rewrite <- has_key_In. congruence. }
  rewrite group_sections_keys in Hn.
  rewrite first_seen_snoc.
  destruct (first_seen (chunk_key c) cs <? List.length cs) eqn:El.
  - apply Nat.ltb_lt in El. lia.
  - assert (E : key_eqb (chunk_key c) (chunk_key c) = true)
      by now apply key_eqb_eq.
    rewrite E. exact Hlt.
Qed.

Lemma group_sections_NoDup (cs : list scored_chunk) :
  NoDup (map fst (group_sections cs)).
Proof.
  induction cs as [|c cs IH] using rev_ind; [constructor|].
  rewrite group_sections_snoc, group_step_keys.
  destruct (has_key (chunk_key c) (group_sections cs)) eqn:Eh; [exact IH|].
  apply (Permutation_NoDup (Permutation_cons_append _ _)).
  constructor; [|exact IH]. rewrite <- has_key_In. congruence.
Qed.

Lemma update_update (k : key) (f g : section -> section) (l : sections_t) :
  update k g (update k f l) = update k (fun s => g (f s)) l.
Proof.
  induction l as [|[k' x] l IH]; simpl; [reflexivity|].
  destruct (key_eqb k' k) eqn:E; simpl; rewrite E; [reflexivity|].
  now rewrite IH.
Qed.

Lemma update_In (k : key) (f : section -> section) (l : sections_t)
    (k' : key) (s' : section) :
  NoDup (map fst l) ->
  In (k', s') (update k f l) ->
  (k' <> k /\ In (k', s') l) \/
  (k' = k /\ exists s0, In (k, s0) l /\ s' = f s0).
Proof.
  induction l as [|[k1 x] l IH]; simpl; intros Hnd Hin; [contradiction|].
  inversion Hnd as [|? ? Hk1 Hnd']; subst.
  destruct (key_eqb k1 k) eqn:E.
  - apply key_eqb_eq in E. subst k1. destruct Hin as [Hin | Hin].
    + inversion Hin; subst. right. split; [reflexivity|]. exists x. auto.
    + left. split; [|now right]. intros ->.
      apply Hk1. apply (in_map fst) in Hin. exact Hin.
  - apply key_eqb_neq in E. destruct Hin as [Hin | Hin].
    + inversion Hin; subst. left. auto.
    + destruct (IH Hnd' Hin) as [[H1 H2] | [H1 [s0 [H2 H3]]]].
      * left. auto.
      * right. split; [exact H1|]. exists s0. auto.
Qed.

(** One turn of the grouping loop, seen from a section of the result. *)
Lemma group_step_In (l : sections_t) (c : scored_chunk) (k : key) (s : section) :
  NoDup (map fst l) ->
  In (k, s) (group_step l c) ->
  (k <> chunk_key c /\ In (k, s) l) \/
  (k = chunk_key c /\
   exists s0, (In (k, s0) l \/
               (has_key k l = false /\ s0 = mkSection "" 0%Q)) /\
     s = mkSection (sec_text s0 ++ (text (chunk_of c) ++ " "))
                   (py_max (max_score s0) (score c))).
Proof.
  intros Hnd. unfold group_step. rewrite update_update. simpl.
  destruct (has_key (chunk_key c) l) eqn:Eh; intros Hin.
  - apply update_In in Hin; [|exact Hnd].
    destruct Hin as [[H1 H2] | [H1 [s0 [H2 H3]]]]; [left; auto|].
    right. subst k. split; [reflexivity|]. exists s0. auto.
  - apply update_In in Hin.
    + destruct Hin as [[H1 H2] | [H1 [s0 [H2 H3]]]].
      * left. split; [exact H1|]. apply in_app_or in H2.
        destruct H2 as [H2 | [H2 | []]]; [exact H2|].
        inversion H2; congruence.
      * right. subst k. split; [reflexivity|]. exists s0.
        split; [|exact H3]. apply in_app_or in H2.
        destruct H2 as [H2 | [H2 | []]]; [now left|].
        right. split; [exact Eh | now inversion H2].
    + rewrite map_app. simpl.
      apply (Permutation_NoDup (Permutation_cons_append _ _)).
      constructor; [|exact Hnd]. rewrite <- has_key_In. congruence.
Qed.

Lemma scores_of_snoc (k : key) (cs : list scored_chunk) (c : scored_chunk) :
  scores_of k (cs ++ [c])
  = (scores_of k cs
     ++ if key_eqb (chunk_key c) k then [score c] else [])%list.
Proof.
  unfold scores_of. rewrite filter_app, map_app. simpl.
  destruct (key_eqb (chunk_key c) k); reflexivity.
Qed.

Lemma scores_of_unseen (k : key) (cs : list scored_chunk) :
  List.length cs <= first_seen k cs -> scores_of k cs = [].
Proof.
  unfold scores_of. induction cs as [|c cs IH]; simpl; [reflexivity|].
  destruct (key_eqb (chunk_key c) k); [lia|]. intros H. apply IH. lia.
Qed.

(** What the grouping loop leaves in [max_score]: the greatest of 0 and
    the scores of the chunks of the section. *)
Lemma group_sections_max_score (cs : list scored_chunk) (k : key) (s : section) :
  In (k, s) (group_sections cs) ->
  (0 <= max_score s)%Q
  /\ Forall (fun x => (x <= max_score s)%Q) (scores_of k cs)
  /\ (max_score s = 0%Q \/ In (max_score s) (scores_of k cs))
  /\ scores_of k cs <> [].
Proof.
  revert k s. induction cs as [|c cs IH] using rev_ind; intros k s Hin.
  - contradiction.
  - rewrite group_sections_snoc in Hin.
    apply group_step_In in Hin; [|apply group_sections_NoDup].
    rewrite scores_of_snoc.
    destruct Hin as [[Hk Hin] | [Hk [s0 [Hs0 Hs]]]].
    + assert (E : key_eqb (chunk_key c) k = false)
        by (apply key_eqb_neq; congruence).
      rewrite E, app_nil_r. now apply IH.
    + assert (E : key_eqb (chunk_key c) k = true)
        by (apply key_eqb_eq; congruence).
      rewrite E. subst s. simpl.
      pose proof (py_max_ge_l (max_score s0) (score c)) as Hl.
      pose proof (py_max_ge_r (max_score s0) (score c)) as Hr.
      assert (Hold : (0 <= max_score s0)%Q
                /\ Forall (fun x => (x <= max_score s0)%Q) (scores_of k cs)
                /\ (max_score s0 = 0%Q \/ In (max_score s0) (scores_of k cs))).
      { destruct Hs0 as [Hs0 | [Hnk ->]].
        - destruct (IH _ _ Hs0) as [H1 [H2 [H3 _]]]. auto.
        - simpl. rewrite scores_of_unseen.
          + repeat split; [lra | constructor | now left].
          + assert (Hn : ~ In k (map fst (group_sections cs)))
              by (rewrite <- has_key_In; congruence).
            rewrite group_sections_keys in Hn. lia. }
      destruct Hold as [H1 [H2 H3]].
      repeat split.
      * lra.
      * apply Forall_app. split.
        -- revert H2. apply Forall_impl. intros x Hx. lra.
        -- constructor; [exact Hr | constructor].
      * destruct (py_max_cases (max_score s0) (score c)) as [-> | ->].
        -- destruct H3 as [H3 | H3]; [now left | right].
           apply in_or_app. now left.
        -- right. apply in_or_app. right. now left.
      * intros Habs. apply app_eq_nil in Habs. destruct Habs; discriminate.
Qed.

Lemma StronglySorted_app_inv {A : Type} (R : A -> A -> Prop) (a b : list A) :
  StronglySorted R (a ++ b) ->
  StronglySorted R a /\ StronglySorted R b
  /\ (forall x y, In x a -> In y b -> R x y).
Proof.
  induction a as [|h a IH]; simpl; intros Hs.
  - repeat split; [constructor | exact Hs | contradiction].
  - inversion Hs as [|? ? Hs' Hh]; subst.
    destruct (IH Hs') as [H1 [H2 H3]].
    apply Forall_app in Hh. destruct Hh as [Ha Hb].
    repeat split; [now constructor | exact H2 |].
    intros x y [-> | Hx] Hy; [|now apply H3].
    rewrite Forall_forall in Hb. now apply Hb.
Qed.

Lemma StronglySorted_firstn {A : Type} (R : A -> A -> Prop) (n : nat)
    (l : list A) :
  StronglySorted R l -> StronglySorted R (firstn n l).
Proof.
  intros Hs. rewrite <- (firstn_skipn n l) in Hs.
  now apply StronglySorted_app_inv in Hs.
Qed.

(** [enumerate(l, a)] keeps the order of [l] and numbers it upwards. *)
Lemma StronglySorted_enumerate {A : Type} (R : A -> A -> Prop) (l : list A)
    (a : nat) :
  StronglySorted R l ->
  StronglySorted (fun x y => fst x < fst y /\ R (snd x) (snd y))
                 (combine (seq a (List.length l)) l).
Proof.
  revert a. induction l as [|h l IH]; intros a Hs; simpl; [constructor|].
  inversion Hs as [|? ? Hs' Hh]; subst. constructor; [now apply IH|].
  rewrite Forall_forall in Hh |- *. intros [i y] Hin. simpl. split.
  - apply in_combine_l, in_seq in Hin. lia.
  - apply in_combine_r in Hin. now apply Hh.
Qed.

Lemma combine_seq_fst {A : Type} (l : list A) (a : nat) :
  map fst (combine (seq a (List.length l)) l) = seq a (List.length l).
Proof.
  revert a. induction l as [|h l IH]; intros a; simpl; [reflexivity|].
  now rewrite IH.
Qed.

Lemma combine_seq_snd {A : Type} (l : list A) (a : nat) :
  map snd (combine (seq a (List.length l)) l) = l.
Proof.
  revert a. induction l as [|h l IH]; intros a; simpl; [reflexivity|].
  now rewrite IH.
Qed.

(** ** Ranking *)

(** [a] is ranked in front of [b]: a greater [max_score], or the same
    [max_score] and a key that was seen first. *)
Lemma sort_sections_order (chunks : list scored_chunk) :
  StronglySorted
    (fun a b =>
       (max_score (snd b) < max_score (snd a))%Q \/
       ((max_score (snd a) == max_score (snd b))%Q /\
        first_seen (fst a) chunks < first_seen (fst b) chunks))
    (sort_sections (group_sections chunks)).
Proof.
  unfold sort_sections, sorted_reverse.
  set (after := fun x y : key * section =>
                  Qltb (max_score (snd x)) (max_score (snd y))).
  set (tag := fun e : key * section => first_seen (fst e) chunks).
  assert (Hs : StronglySorted (in_front after tag)
                 (stable_sort after (group_sections chunks))).
  { apply stable_sort_sorted.
    - intros x y H. apply Qltb_lt in H. apply Qltb_ge. lra.
    - intros x y z H1 H2. apply Qltb_ge in H1, H2. apply Qltb_ge. lra.
    - apply StronglySorted_of_map with (f := fst)
        (R := fun a b => first_seen a chunks < first_seen b chunks).
      apply group_sections_order. }
  revert Hs. apply StronglySorted_impl_in. intros a b _ _ [H | [H1 [H2 H3]]].
  - left. now apply Qltb_lt in H.
  - right. apply Qltb_ge in H1, H2. split; [lra | exact H3].
Qed.

(** C10: every section of the aggregation step has [max_score >= 0],
    whatever the signs of the scores of its chunks, before and after the
    sections are sorted: the accumulator starts at 0 and is only replaced
    by a greater score. *)
Theorem max_score_nonnegative (chunks : list scored_chunk) :
  Forall (fun e => (0 <= max_score (snd e))%Q) (group_sections chunks)
  /\ Forall (fun e => (0 <= max_score (snd e))%Q)
            (sort_sections (group_sections chunks)).
Proof.
  assert (H : Forall (fun e => (0 <= max_score (snd e))%Q)
                     (group_sections chunks)).
  { apply Forall_forall. intros [k s] Hin.
    now apply group_sections_max_score in Hin. }
  split; [exact H|].
  unfold sort_sections, sorted_reverse. now rewrite stable_sort_perm.
Qed.

(** C1: the claim is that [max_score] is the maximum of the scores of the
    chunks of the section, also for negative scores.  On a page with one
    chunk of score -1/2 the maximum of the scores is -1/2, and the
    aggregation step leaves [max_score = 0]. *)
Theorem max_score_of_negative_chunk :
  let chunks := [mkScored (mkChunk "x" "d.pdf" 1) (-1 # 2)] in
  group_sections chunks = [(("d.pdf", 1), mkSection "x " 0)]
  /\ maximum (scores_of ("d.pdf", 1) chunks) = Some (-1 # 2)
  /\ ~ (0 == -1 # 2)%Q.
Proof.
  repeat split. intros H. discriminate H.
Qed.

(** C2: the ranked sections are a rearrangement of the sections, sorted by
    [max_score] descending; two sections of equal [max_score] are in the
    order in which their keys were first seen while grouping; and along
    [enumerate(sorted_sections[:TOP_SECTIONS], 1)] the rank is strictly
    increasing, starting at 1 with step 1, while [max_score] is
    non-increasing. *)
Theorem ranking_is_stable_descending (chunks : list scored_chunk) :
  let sorted := sort_sections (group_sections chunks) in
  Permutation sorted (group_sections chunks)
  /\ StronglySorted
       (fun a b =>
          (max_score (snd b) < max_score (snd a))%Q \/
          ((max_score (snd a) == max_score (snd b))%Q /\
           first_seen (fst a) chunks < first_seen (fst b) chunks))
       sorted
  /\ StronglySorted
       (fun x y =>
          fst x < fst y /\
          (max_score (snd (snd y)) <= max_score (snd (snd x)))%Q)
       (ranked sorted)
  /\ map fst (ranked sorted)
     = seq 1 (Nat.min TOP_SECTIONS (List.length sorted)).
Proof.
  intros sorted. pose proof (sort_sections_order chunks) as Hs.
  fold sorted in Hs. repeat split.
  - apply stable_sort_perm.
  - exact Hs.
  - unfold ranked.
    apply (StronglySorted_enumerate
             (fun a b : key * section =>
                (max_score (snd b) <= max_score (snd a))%Q)).
    apply StronglySorted_firstn. revert Hs.
    apply StronglySorted_impl_in. intros a b _ _ [H | [H _]]; lra.
  - unfold ranked. now rewrite combine_seq_fst, length_firstn.
Qed.

(** ** Chunks of a page *)

(** A page of white space only has no chunks. *)
Lemma chunk_page_blank (size : nat) (f : string) (p : nat) (t : string) :
  PyStr.truthy (PyStr.strip t) = false -> chunk_page size f p t = [].
Proof. intros H. unfold chunk_page, chunk_texts. now rewrite H. Qed.

(** C5, as stated, fails on a page of white space: the page is skipped, it
    has no chunks, and their concatenation is not the text of the page. *)
Lemma chunk_page_blank_page_lost :
  String.concat "" (map text (chunk_page CHUNK_SIZE "a.pdf" 1 " ")) <> " ".
Proof. vm_compute. discriminate. Qed.

(** C5 (amended): for a chunk size above 0 and a page whose text is not
    empty once stripped, chunk [i] of the page is the slice of the text at
    offset [i * size] of [size] characters (cut at the end of the text), so
    every chunk has at most [size] characters, and the chunks in order
    concatenate to the text of the page. *)
Theorem chunk_page_partition (size : nat) (f : string) (p : nat)
    (page_text : string) :
  0 < size ->
  PyStr.truthy (PyStr.strip page_text) = true ->
  let chunks := chunk_page size f p page_text in
  map text chunks
  = map (fun i => PyStr.slice (i * size) size page_text)
        (seq 0 (List.length chunks))
  /\ Forall (fun c => String.length (text c) <= size) chunks
  /\ String.concat "" (map text chunks) = page_text.
Proof.
  intros Hs Ht chunks. subst chunks. repeat split.
  - rewrite chunk_page_texts. unfold chunk_page, chunk_texts, PyStr.range_step.
    rewrite Ht, !length_map, length_seq, map_map. reflexivity.
  - pose proof (chunk_texts_bound size page_text) as H.
    rewrite <- (chunk_page_texts size f p) in H.
    now apply Forall_map in H.
  - rewrite chunk_page_texts. now apply chunk_texts_concat.
Qed.

Lemma chunk_page_partition_witness :
  0 < 3
  /\ PyStr.truthy (PyStr.strip "abcdefgh") = true
  /\ let chunks := chunk_page 3 "a.pdf" 1 "abcdefgh" in
     map text chunks
     = map (fun i => PyStr.slice (i * 3) 3 "abcdefgh")
           (seq 0 (List.length chunks))
     /\ Forall (fun c => String.length (text c) <= 3) chunks
     /\ String.concat "" (map text chunks) = "abcdefgh".
Proof.
  split; [lia|]. split; [reflexivity|].
  apply (chunk_page_partition 3 "a.pdf" 1 "abcdefgh"); [lia | reflexivity].
Defined.

(** ** Sorting of indices and argsort *)

Section SortFacts.
Context {A : Type}.
Variable after : A -> A -> bool.
Hypothesis after_asym : forall x y, after x y = true -> after y x = false.
Hypothesis after_trans :
  forall x y z, after x y = false -> after y z = false -> after x z = false.

Lemma insert_ordered (x : A) (l : list A) :
  StronglySorted (fun a b => after a b = false) l ->
  StronglySorted (fun a b => after a b = false) (insert after x l).
Proof.
  induction l as [|y l IH]; intros Hs; simpl; [repeat constructor|].
  inversion Hs as [|? ? Hs' Hy]; subst.
  destruct (after x y) eqn:Exy.
  - constructor; [now apply IH|].
    rewrite (insert_perm after x l). constructor; [now apply after_asym|].
    exact Hy.
  - constructor; [exact Hs|]. constructor; [exact Exy|].
    revert Hy. apply Forall_impl. intros z. now apply after_trans.
Qed.

Lemma stable_sort_ordered (l : list A) :
  StronglySorted (fun a b => after a b = false) (stable_sort after l).
Proof.
  induction l as [|x l IH]; simpl; [constructor | now apply insert_ordered].
Qed.

End SortFacts.

Lemma sort_indices_perm (l : list nat) : Permutation (sort_indices l) l.
Proof. apply stable_sort_perm. Qed.

Lemma sort_indices_increasing (l : list nat) :
  NoDup l -> StronglySorted lt (sort_indices l).
Proof.
  intros Hnd.
  assert (Hs : StronglySorted (fun a b => (b <? a) = false) (sort_indices l)).
  { apply stable_sort_ordered.
    - intros x y H. apply Nat.ltb_lt in H. apply Nat.ltb_ge. lia.
    - intros x y z H1 H2. apply Nat.ltb_ge in H1, H2. apply Nat.ltb_ge. lia. }
  assert (Hnd' : NoDup (sort_indices l)).
  { apply (Permutation_NoDup (Permutation_sym (sort_indices_perm l)) Hnd). }
  induction Hs as [|a r Hs IH Ha]; [constructor|].
  inversion Hnd' as [|? ? Hna Hr]; subst. constructor; [now apply IH|].
  rewrite Forall_forall in Ha |- *. intros b Hb.
  specialize (Ha b Hb). apply Nat.ltb_ge in Ha.
  assert (a <> b) by (intros ->; contradiction). lia.
Qed.

Lemma indices_eqb_eq (a b : list nat) : indices_eqb a b = true -> a = b.
Proof.
  revert b. induction a as [|x a IH]; intros [|y b]; simpl; try discriminate.
  - reflexivity.
  - rewrite andb_true_iff, Nat.eqb_eq. intros [-> H]. f_equal. now apply IH.
Qed.

Lemma ascending_along_sorted (values : list Q) (order : list nat) :
  ascending_along values order = true ->
  StronglySorted (fun i j => (nth i values 0 <= nth j values 0)%Q) order.
Proof.
  intros H. apply Sorted_StronglySorted.
  - intros i j k Hij Hjk. now apply Qle_trans with (nth j values 0%Q).
  - unfold ascending_along in H. induction order as [|i order IH].
    + constructor.
    + destruct order as [|j order]; [repeat constructor|].
      simpl in H. apply andb_true_iff in H. destruct H as [Hij H].
      constructor; [now apply IH|]. constructor. now apply Qle_bool_iff.
Qed.

(** What a valid answer of argsort gives: the indices below the number of
    values, each once, with ascending values. *)
Lemma is_argsort_spec (values : list Q) (order : list nat) :
  is_argsort values order = true ->
  Permutation order (seq 0 (List.length values))
  /\ StronglySorted (fun i j => (nth i values 0 <= nth j values 0)%Q) order.
Proof.
  unfold is_argsort. rewrite andb_true_iff. intros [Hp Ha]. split.
  - apply indices_eqb_eq in Hp. rewrite <- Hp.
    apply Permutation_sym, sort_indices_perm.
  - now apply ascending_along_sorted.
Qed.

(** ** A valid argsort *)

Lemma indices_eqb_refl (l : list nat) : indices_eqb l l = true.
Proof.
  induction l as [|x l IH]; simpl; [reflexivity|].
  now rewrite Nat.eqb_refl, IH.
Qed.

Lemma seq_increasing (a n : nat) : StronglySorted lt (seq a n).
Proof.
  revert a. induction n as [|n IH]; intros a; simpl; constructor.
  - apply IH.
  - apply Forall_forall. intros b Hb. apply in_seq in Hb. lia.
Qed.

(** An increasing list is fixed by its elements. *)
Lemma increasing_perm_eq (l1 l2 : list nat) :
  StronglySorted lt l1 -> StronglySorted lt l2 -> Permutation l1 l2 ->
  l1 = l2.
Proof.
  revert l2. induction l1 as [|a l1 IH]; intros l2 H1 H2 Hp.
  - apply Permutation_nil in Hp. now subst.
  - destruct l2 as [|b l2].
    + apply Permutation_sym, Permutation_nil in Hp. discriminate Hp.
    + inversion H1 as [|? ? H1' Ha]; subst.
      inversion H2 as [|? ? H2' Hb]; subst.
      rewrite Forall_forall in Ha, Hb.
      assert (E : a = b).
      { assert (Hab : In a (b :: l2))
          by (apply (Permutation_in _ Hp); now left).
        assert (Hba : In b (a :: l1))
          by (apply (Permutation_in _ (Permutation_sym Hp)); now left).
        destruct Hab as [Hab | Hab]; [now symmetry|].
        destruct Hba as [Hba | Hba]; [exact Hba|].
        apply Hb in Hab. apply Ha in Hba. lia. }
      subst b. f_equal. apply IH; try assumption.
      now apply Permutation_cons_inv in Hp.
Qed.

Lemma sort_indices_of_perm (l : list nat) (n : nat) :
  Permutation l (seq 0 n) -> sort_indices l = seq 0 n.
Proof.
  intros Hp. apply increasing_perm_eq.
  - apply sort_indices_increasing.
    apply (Permutation_NoDup (Permutation_sym Hp)), seq_NoDup.
  - apply seq_increasing.
  - now rewrite sort_indices_perm.
Qed.

Lemma in_combine_seq {A : Type} (d : A) (l : list A) (a i : nat) (v : A) :
  In (i, v) (combine (seq a (List.length l)) l) ->
  a <= i /\ nth (i - a) l d = v.
Proof.
  revert a. induction l as [|x l IH]; intros a; simpl; [contradiction|].
  intros [H | H].
  - inversion H; subst. now rewrite Nat.sub_diag.
  - apply IH in H. destruct H as [Hle Hn]. split; [lia|].
    replace (i - a) with (S (i - S a)) by lia. exact Hn.
Qed.

Lemma ascending_along_pairs (values : list Q) (ps : list (nat * Q)) :
  StronglySorted (fun a b => (snd a <= snd b)%Q) ps ->
  (forall p, In p ps -> nth (fst p) values 0%Q = snd p) ->
  ascending_along values (map fst ps) = true.
Proof.
  unfold ascending_along.
  induction ps as [|p ps IH]; intros Hs Hv; [reflexivity|].
  destruct ps as [|q ps]; [reflexivity|].
  inversion Hs as [|? ? Hs' Hp]; subst. inversion Hp as [|? ? Hpq _]; subst.
  cbn [map tl combine forallb fst snd]. apply andb_true_iff. split.
  - rewrite (Hv p), (Hv q) by (simpl; auto). now apply Qle_bool_iff.
  - apply IH; [exact Hs'|]. intros r Hr. apply Hv. now right.
Qed.

(** The stable argsort is a valid argsort of every list of values. *)
Lemma argsort_stable_valid (values : list Q) :
  is_argsort values (argsort_stable values) = true.
Proof.
  unfold is_argsort, argsort_stable.
  set (after := fun x y : nat * Q => Qltb (snd y) (snd x)).
  set (pairs := combine (seq 0 (List.length values)) values).
  assert (Hp : Permutation (stable_sort after pairs) pairs)
    by apply stable_sort_perm.
  apply andb_true_iff. split.
  - rewrite (sort_indices_of_perm _ (List.length values)).
    + apply indices_eqb_refl.
    + rewrite (Permutation_map fst Hp). unfold pairs.
      now rewrite combine_seq_fst.
  - apply ascending_along_pairs.
    + assert (Hs : StronglySorted (fun a b => after a b = false)
                     (stable_sort after pairs)).
      { apply stable_sort_ordered; unfold after.
        - intros x y H. apply Qltb_lt in H. apply Qltb_ge. lra.
        - intros x y z H1 H2. apply Qltb_ge in H1, H2. apply Qltb_ge. lra. }
      revert Hs. apply StronglySorted_impl_in. intros a b _ _ H.
      unfold after in H. now apply Qltb_ge in H.
    + intros [i v] Hin. apply (Permutation_in _ Hp) in Hin.
      apply (in_combine_seq 0%Q) in Hin. simpl.
      destruct Hin as [_ Hn]. now rewrite Nat.sub_0_r in Hn.
Qed.

(** ** Selection of sentences *)

Lemma last_n_suffix {A : Type} (n : nat) (l : list A) :
  exists front, l = (front ++ last_n n l)%list
                /\ List.length (last_n n l)
                   = if n =? 0 then List.length l
                     else Nat.min n (List.length l).
Proof.
  unfold last_n. destruct (n =? 0) eqn:E.
  - exists []. auto.
  - exists (firstn (List.length l - n) l). split.
    + now rewrite firstn_skipn.
    + rewrite length_skipn. apply Nat.eqb_neq in E. lia.
Qed.

(** The indices picked by [generate_refined_text], for a valid answer of
    argsort: as many as asked for (all if there are fewer sentences), in
    increasing order, and no index left out has a greater similarity than
    an index picked. *)
Lemma top_indices_spec (sim : string -> Q) (argsort : list Q -> list nat)
    (sentences : list string) :
  is_argsort (map sim sentences) (argsort (map sim sentences)) = true ->
  let top := top_indices sim argsort sentences in
  List.length top
  = Nat.min TOP_SENTENCES_FOR_REFINED_TEXT (List.length sentences)
  /\ StronglySorted lt top
  /\ Forall (fun i => i < List.length sentences) top
  /\ (forall i j, In i top -> j < List.length sentences -> ~ In j top ->
        (nth j (map sim sentences) 0 <= nth i (map sim sentences) 0)%Q).
Proof.
  intros Hv top. apply is_argsort_spec in Hv. destruct Hv as [Hp Hs].
  rewrite length_map in Hp.
  set (order := argsort (map sim sentences)) in *.
  destruct (last_n_suffix TOP_SENTENCES_FOR_REFINED_TEXT order)
    as [front [Ho Hl]].
  simpl in Hl.
  assert (Hlen : List.length order = List.length sentences).
  { rewrite (Permutation_length Hp). apply length_seq. }
  assert (Hnd : NoDup order).
  { apply (Permutation_NoDup (Permutation_sym Hp)), seq_NoDup. }
  set (sel := last_n TOP_SENTENCES_FOR_REFINED_TEXT order) in *.
  assert (Htop : Permutation top sel) by apply sort_indices_perm.
  assert (Hnd_sel : NoDup sel).
  { rewrite Ho in Hnd. now apply NoDup_app_remove_l in Hnd. }
  repeat split.
  - rewrite (Permutation_length Htop), Hl, Hlen. reflexivity.
  - now apply sort_indices_increasing.
  - apply Forall_forall. intros i Hi.
    assert (Hin : In i order).
    { rewrite Ho. apply in_or_app. right.
      now apply (Permutation_in _ Htop). }
    apply (Permutation_in _ Hp), in_seq in Hin. lia.
  - intros i j Hi Hj Hnj.
    assert (Hjo : In j order).
    { apply (Permutation_in _ (Permutation_sym Hp)), in_seq. lia. }
    rewrite Ho in Hjo, Hs. apply in_app_or in Hjo.
    destruct Hjo as [Hjf | Hjs].
    + apply StronglySorted_app_inv in Hs. destruct Hs as [_ [_ Hc]].
      apply Hc; [exact Hjf|]. now apply (Permutation_in _ Htop).
    + exfalso. apply Hnj.
      now apply (Permutation_in _ (Permutation_sym Htop)).
Qed.

Lemma pick_in_range {A : Type} (d : A) (l : list A) (indices : list nat) :
  Forall (fun i => i < List.length l) indices ->
  pick l indices = Some (map (fun i => nth i l d) indices).
Proof.
  induction 1 as [|i indices Hi _ IH]; simpl; [reflexivity|].
  rewrite IH. rewrite (nth_error_nth' l d Hi). reflexivity.
Qed.

Lemma sentences_of_truthy (full_text s : string) :
  In s (sentences_of full_text) -> PyStr.truthy s = true.
Proof.
  unfold sentences_of. rewrite in_map_iff. intros [x [<- Hx]].
  now apply filter_In in Hx.
Qed.

Lemma join_truthy (sep x : string) (l : list string) :
  PyStr.truthy x = true -> PyStr.truthy (PyStr.join sep (x :: l)) = true.
Proof.
  unfold PyStr.join. destruct x as [|c x]; [discriminate|].
  intros _. destruct l; reflexivity.
Qed.

(** The result of the summary in terms of the indices picked. *)
Lemma generate_refined_text_eq (sim : string -> Q)
    (argsort : list Q -> list nat) (full_text : string) :
  let sentences := sentences_of full_text in
  sentences <> [] ->
  is_argsort (map sim sentences) (argsort (map sim sentences)) = true ->
  generate_refined_text sim argsort full_text
  = Some (PyStr.join " " (map (fun i => nth i sentences "")
                              (top_indices sim argsort sentences)) ++ ".").
Proof.
  intros sentences Hne Hv.
  destruct (top_indices_spec sim argsort sentences Hv) as [Hlen [_ [Hr _]]].
  unfold generate_refined_text. fold sentences.
  destruct sentences as [|s0 rest] eqn:Es; [congruence|].
  rewrite (pick_in_range "" _ _ Hr).
  destruct (top_indices sim argsort (s0 :: rest)) as [|i top] eqn:Et.
  - simpl in Hlen. discriminate Hlen.
  - cbn [map]. rewrite join_truthy; [reflexivity|].
    apply (sentences_of_truthy full_text). fold sentences. rewrite Es.
    inversion Hr; subst. now apply nth_In.
Qed.

(** C4: when the text has no sentence the summary is the empty string.
    Otherwise, for a valid answer of argsort, the summary is made of
    [TOP_SENTENCES_FOR_REFINED_TEXT] sentences (all of them if there are
    fewer), none of which has a smaller similarity than a sentence left
    out, taken in the order of their positions in the text, joined by one
    space, with a final ".". *)
Theorem generate_refined_text_selects (sim : string -> Q)
    (argsort : list Q -> list nat) (full_text : string) :
  let sentences := sentences_of full_text in
  let sims := map sim sentences in
  (sentences <> [] -> is_argsort sims (argsort sims) = true) ->
  exists top : list nat,
    generate_refined_text sim argsort full_text
    = Some (match sentences with
            | [] => ""
            | _ :: _ =>
                PyStr.join " " (map (fun i => nth i sentences "") top) ++ "."
            end)
    /\ List.length top
       = Nat.min TOP_SENTENCES_FOR_REFINED_TEXT (List.length sentences)
    /\ StronglySorted lt top
    /\ Forall (fun i => i < List.length sentences) top
    /\ (forall i j, In i top -> j < List.length sentences -> ~ In j top ->
          (nth j sims 0 <= nth i sims 0)%Q).
Proof.
  intros sentences sims Hv.
  assert (Hc : sentences = [] \/ sentences <> []).
  { destruct sentences; [now left | right; discriminate]. }
  destruct Hc as [He | Hne].
  - exists []. unfold generate_refined_text. fold sentences. rewrite He.
    repeat split; try constructor. intros i j [].
  - specialize (Hv Hne).
    exists (top_indices sim argsort sentences). split.
    + rewrite (generate_refined_text_eq sim argsort full_text Hne Hv).
      fold sentences. f_equal.
      destruct sentences; [congruence | reflexivity].
    + now apply top_indices_spec.
Qed.

Lemma generate_refined_text_selects_witness :
  let sentences := sentences_of "S1. S2. S3. S4." in
  let sims := map sample_sim sentences in
  (sentences <> [] -> is_argsort sims (argsort_stable sims) = true)
  /\ exists top : list nat,
       generate_refined_text sample_sim argsort_stable "S1. S2. S3. S4."
       = Some (match sentences with
               | [] => ""
               | _ :: _ =>
                   PyStr.join " " (map (fun i => nth i sentences "") top)
                   ++ "."
               end)
       /\ List.length top
          = Nat.min TOP_SENTENCES_FOR_REFINED_TEXT (List.length sentences)
       /\ StronglySorted lt top
       /\ Forall (fun i => i < List.length sentences) top
       /\ (forall i j, In i top -> j < List.length sentences -> ~ In j top ->
             (nth j sims 0 <= nth i sims 0)%Q).
Proof.
  split; [intros _; reflexivity|].
  apply (generate_refined_text_selects sample_sim argsort_stable
           "S1. S2. S3. S4.").
  intros _. reflexivity.
Defined.

(** C3, as stated, fails: for the sentences S1, S2, S3, S4 with the
    similarities [S3 > S1 > S4 > S2] the summary is "S1 S3 S4.", with no
    full stop inside, and not "S1. S3. S4."; it is not "S3 S1 S4." either. *)
Lemma refined_text_has_no_inner_stops :
  sentences_of "S1. S2. S3. S4." = ["S1"; "S2"; "S3"; "S4"]
  /\ generate_refined_text sample_sim argsort_stable "S1. S2. S3. S4."
     = Some "S1 S3 S4."
  /\ generate_refined_text sample_sim argsort_stable "S1. S2. S3. S4."
     <> Some "S1. S3. S4."
  /\ generate_refined_text sample_sim argsort_stable "S1. S2. S3. S4."
     <> Some "S3 S1 S4.".
Proof. vm_compute. repeat split; discriminate. Qed.

(** C3 (amended): for a section whose sentences in order are s1, s2, s3,
    s4, with similarities [s3 > s1 > s4 > s2], and a valid answer of
    argsort, the summary is exactly s1, s3 and s4 in this order, joined by
    one space and followed by one ".": the sentences are picked by score
    and shown by position, and the full stops between them are not put
    back. *)
Theorem refined_text_of_four_sentences (sim : string -> Q)
    (argsort : list Q -> list nat) (full_text s1 s2 s3 s4 : string) :
  sentences_of full_text = [s1; s2; s3; s4] ->
  (sim s2 < sim s4)%Q -> (sim s4 < sim s1)%Q -> (sim s1 < sim s3)%Q ->
  is_argsort (map sim [s1; s2; s3; s4]) (argsort (map sim [s1; s2; s3; s4]))
  = true ->
  generate_refined_text sim argsort full_text
  = Some (PyStr.join " " [s1; s3; s4] ++ ".").
Proof.
  intros Es H24 H41 H13 Hv.
  assert (Hne : sentences_of full_text <> []) by (rewrite Es; discriminate).
  rewrite <- Es in Hv.
  rewrite (generate_refined_text_eq sim argsort full_text Hne Hv).
  destruct (top_indices_spec sim argsort _ Hv) as [Hlen [Hs [Hr Hd]]].
  rewrite Es in *.
  destruct (top_indices sim argsort [s1; s2; s3; s4])
    as [|a [|b [|c [|d top]]]]; try discriminate Hlen.
  clear Hlen.
  inversion Hs as [|? ? Hs1 Ha]; subst.
  inversion Hs1 as [|? ? Hs2 Hb]; subst.
  inversion Ha as [|? ? Hab Ha']; subst. inversion Ha' as [|? ? Hac _]; subst.
  inversion Hb as [|? ? Hbc _]; subst.
  inversion Hr as [|? ? Hra Hr1]; subst.
  inversion Hr1 as [|? ? Hrb Hr2]; subst.
  inversion Hr2 as [|? ? Hrc _]; subst.
  simpl in Hra, Hrb, Hrc.
  assert (Hcases : (a = 0 /\ b = 1 /\ c = 2) \/ (a = 0 /\ b = 1 /\ c = 3)
                   \/ (a = 0 /\ b = 2 /\ c = 3) \/ (a = 1 /\ b = 2 /\ c = 3))
    by lia.
  destruct Hcases as [[-> [-> ->]] | [[-> [-> ->]] | [[-> [-> ->]]
                     | [-> [-> ->]]]]].
  - exfalso. specialize (Hd 1 3). simpl in Hd.
    assert ((sim s4 <= sim s2)%Q) by (apply Hd; [auto | lia | intros H; simpl in H; lia]).
    lra.
  - exfalso. specialize (Hd 1 2). simpl in Hd.
    assert ((sim s3 <= sim s2)%Q) by (apply Hd; [auto | lia | intros H; simpl in H; lia]).
    lra.
  - reflexivity.
  - exfalso. specialize (Hd 1 0). simpl in Hd.
    assert ((sim s1 <= sim s2)%Q) by (apply Hd; [auto | lia | intros H; simpl in H; lia]).
    lra.
Qed.

Lemma refined_text_of_four_sentences_witness :
  sentences_of "S1. S2. S3. S4." = ["S1"; "S2"; "S3"; "S4"]
  /\ (sample_sim "S2" < sample_sim "S4")%Q
  /\ (sample_sim "S4" < sample_sim "S1")%Q
  /\ (sample_sim "S1" < sample_sim "S3")%Q
  /\ is_argsort (map sample_sim ["S1"; "S2"; "S3"; "S4"])
                (argsort_stable (map sample_sim ["S1"; "S2"; "S3"; "S4"]))
     = true
  /\ generate_refined_text sample_sim argsort_stable "S1. S2. S3. S4."
     = Some (PyStr.join " " ["S1"; "S3"; "S4"] ++ ".").
Proof.
  repeat (split; [reflexivity|]).
  apply (refined_text_of_four_sentences sample_sim argsort_stable
           "S1. S2. S3. S4." "S1" "S2" "S3" "S4"); reflexivity.
Defined.

(** ** The output *)

Section PipelineFacts.
Variable similarity : string -> string -> Q.
Variable argsort : list Q -> list nat.

Lemma output_loop_raised (query : string)
    (items : list (nat * (key * section))) :
  fold_left (output_step similarity argsort query) items None = None.
Proof. induction items as [|it items IH]; simpl; auto. Qed.

(** The output loop appends one entry to each array for every item, about
    the section of the item and with the rank of the item. *)
Lemma output_loop (query : string) (items : list (nat * (key * section)))
    (es es' : list extracted_section) (an an' : list subsection_analysis) :
  fold_left (output_step similarity argsort query) items (Some (es, an))
  = Some (es', an') ->
  exists es1 an1,
    es' = (es ++ es1)%list /\ an' = (an ++ an1)%list
    /\ map extracted_key es1 = map (fun it => fst (snd it)) items
    /\ map importance_rank es1 = map fst items
    /\ map analysis_key an1 = map (fun it => fst (snd it)) items.
Proof.
  revert es an. induction items as [|it items IH]; intros es an H.
  - simpl in H. inversion H; subst. exists [], [].
    now rewrite !app_nil_r.
  - simpl in H.
    destruct (generate_refined_text (similarity query) argsort
                (sec_text (snd (snd it)))) as [refined|] eqn:Er.
    + apply IH in H. destruct H as [es1 [an1 [H1 [H2 [H3 [H4 H5]]]]]].
      eexists (_ :: es1), (_ :: an1).
      rewrite <- !app_assoc in H1, H2. simpl in H1, H2.
      split; [exact H1|]. split; [exact H2|].
      simpl. rewrite H3, H4, H5.
      destruct it as [i [[doc page] data]]. simpl. auto.
    + rewrite output_loop_raised in H. discriminate H.
Qed.

End PipelineFacts.

(** What has been written was written by the last step, for a run that
    had a query, chunks and a listing of the directory. *)
Lemma save_output_written (w : world) (output_file path : string)
    (out o : output) :
  In (WriteJson path o) (run_events (save_output w output_file out)) ->
  path = output_file /\ o = out /\ can_write w output_file = true.
Proof.
  unfold save_output.
  destruct (PyStr.truthy (PyPath.dirname output_file)
            && negb (can_makedirs w (PyPath.dirname output_file)));
    [intros []|].
  destruct (can_write w output_file); simpl.
  - intros H. apply in_app_or in H. destruct H as [H | [H | []]].
    + destruct (PyStr.truthy _); [|contradiction].
      destruct H as [H | []]. discriminate H.
    + inversion H. auto.
  - destruct (PyStr.truthy _); [|contradiction].
    intros [H | []]. discriminate H.
Qed.

Lemma save_output_made (w : world) (output_file dir : string) (out : output) :
  In (MakeDirs dir) (run_events (save_output w output_file out)) ->
  dir = PyPath.dirname output_file
  /\ PyStr.truthy dir = true
  /\ can_makedirs w dir = true.
Proof.
  unfold save_output.
  destruct (PyStr.truthy (PyPath.dirname output_file)) eqn:Et; simpl.
  - destruct (can_makedirs w (PyPath.dirname output_file)) eqn:Em; simpl;
      [|intros []].
    destruct (can_write w output_file); simpl.
    + intros [H | [H | []]]; [|discriminate H]. inversion H; subst. auto.
    + intros [H | []]. inversion H; subst. auto.
  - destruct (can_write w output_file); simpl; [|intros []].
    intros [H | []]. discriminate H.
Qed.

Section MainFacts.
Variable similarity : string -> string -> Q.
Variable argsort : list Q -> list nat.

(** A run does something to the file system in its last step only. *)
Lemma main_events (inp : inputs) (e : fs_event) :
  In e (run_events (main similarity argsort inp)) ->
  exists query chunks names extracted analysis,
    generate_intelligent_query (persona inp) (job inp) = Some query
    /\ model_loads (surroundings inp) = true
    /\ parse_and_chunk_documents (docs_dir inp) = Some chunks
    /\ chunks <> []
    /\ model_encodes (surroundings inp) = true
    /\ listdir (docs_dir inp) = Some names
    /\ fold_left (output_step similarity argsort query)
                 (ranked (sorted_sections similarity query chunks))
                 (Some ([], []))
       = Some (extracted, analysis)
    /\ In e (run_events
               (save_output (surroundings inp) (output_file inp)
                  (mkOutput
                     (mkMetadata names (persona inp) (job inp)
                                 (start_time inp))
                     extracted analysis))).
Proof.
  unfold main.
  destruct (generate_intelligent_query (persona inp) (job inp))
    as [query|]; [|intros []].
  destruct (model_loads (surroundings inp)); [|intros []]. simpl.
  destruct (parse_and_chunk_documents (docs_dir inp)) as [[|c cs]|];
    [intros [] | | intros []].
  destruct (model_encodes (surroundings inp)); [|intros []]. simpl.
  destruct (listdir (docs_dir inp)) as [names|]; [|intros []].
  destruct (fold_left _ _ _) as [[extracted analysis]|] eqn:Ef; [|intros []].
  intros H. exists query, (c :: cs), names, extracted, analysis.
  repeat split; try reflexivity; try assumption. discriminate.
Qed.

(** The output that a run has written. *)
Lemma main_written_output (inp : inputs) (path : string) (out : output) :
  In (WriteJson path out) (run_events (main similarity argsort inp)) ->
  exists query chunks names,
    generate_intelligent_query (persona inp) (job inp) = Some query
    /\ parse_and_chunk_documents (docs_dir inp) = Some chunks
    /\ chunks <> []
    /\ listdir (docs_dir inp) = Some names
    /\ path = output_file inp
    /\ Metadata out
       = mkMetadata names (persona inp) (job inp) (start_time inp)
    /\ fold_left (output_step similarity argsort query)
                 (ranked (sorted_sections similarity query chunks))
                 (Some ([], []))
       = Some (Extracted_Section out, Sub_section_Analysis out).
Proof.
  intros H. apply main_events in H.
  destruct H as [query [chunks [names [es [an
                  [Hq [_ [Hp [Hne [_ [Hl [Hf Hin]]]]]]]]]]]].
  apply save_output_written in Hin. destruct Hin as [-> [-> _]].
  exists query, chunks, names. simpl. auto 10.
Qed.

End MainFacts.

(** Runs that raise: on an output path that is empty or names a directory
    (after the directory was made), on a PDF that cannot be opened, on a
    persona that is not an object. *)
Example main_raises_on_empty_path :
  main sample_similarity argsort_stable (sample_inputs_to "")
  = mkRun [] Raised.
Proof. vm_compute. reflexivity. Qed.

Example main_raises_on_directory_path :
  main sample_similarity argsort_stable (sample_inputs_to "out/")
  = mkRun [MakeDirs "out"] Raised.
Proof. vm_compute. reflexivity. Qed.

Example main_raises_on_unreadable_pdf :
  main sample_similarity argsort_stable sample_unreadable_inputs
  = mkRun [] Raised.
Proof. vm_compute. reflexivity. Qed.

Example main_raises_on_array_persona :
  main sample_similarity argsort_stable sample_array_inputs
  = mkRun [] Raised.
Proof. vm_compute. reflexivity. Qed.

Example main_returns_on_sample :
  main sample_similarity argsort_stable sample_inputs
  = mkRun [MakeDirs "out"; WriteJson "out/result.json" sample_output]
          Returned.
Proof. vm_compute. reflexivity. Qed.

(** C6: when a run writes its output, both arrays have
    [min(TOP_SECTIONS, number of sections)] entries; the ranks of the
    extracted sections are 1, 2, ... in this order; and entry [i] of both
    arrays is about section [i] of the sorted sections. *)
Theorem output_arrays_aligned (similarity : string -> string -> Q)
    (argsort : list Q -> list nat) (inp : inputs)
    (path : string) (out : output) :
  In (WriteJson path out) (run_events (main similarity argsort inp)) ->
  exists query chunks,
    generate_intelligent_query (persona inp) (job inp) = Some query
    /\ parse_and_chunk_documents (docs_dir inp) = Some chunks
    /\ let sections := sorted_sections similarity query chunks in
       let K := Nat.min TOP_SECTIONS (List.length sections) in
       List.length (Extracted_Section out) = K
       /\ List.length (Sub_section_Analysis out) = K
       /\ map importance_rank (Extracted_Section out) = seq 1 K
       /\ map extracted_key (Extracted_Section out)
          = map fst (firstn TOP_SECTIONS sections)
       /\ map analysis_key (Sub_section_Analysis out)
          = map fst (firstn TOP_SECTIONS sections).
Proof.
  intros Hin. apply main_written_output in Hin.
  destruct Hin as [query [chunks [names [Hq [Hp [_ [_ [_ [_ Hf]]]]]]]]].
  exists query, chunks. split; [exact Hq|]. split; [exact Hp|].
  intros sections K. fold sections in Hf.
  apply output_loop in Hf.
  destruct Hf as [es1 [an1 [H1 [H2 [H3 [H4 H5]]]]]].
  simpl in H1, H2. subst es1 an1.
  assert (Hk : map (fun it : nat * (key * section) => fst (snd it))
                   (ranked sections)
               = map fst (firstn TOP_SECTIONS sections)).
  { unfold ranked. rewrite <- (map_map snd fst), combine_seq_snd.
    reflexivity. }
  assert (Hr : map fst (ranked sections) = seq 1 K).
  { unfold ranked. rewrite combine_seq_fst, length_firstn. reflexivity. }
  rewrite Hk in H3, H5. rewrite Hr in H4.
  repeat split; try assumption.
  + rewrite <- (length_map importance_rank), H4. apply length_seq.
  + rewrite <- (length_map analysis_key), H5, length_map, length_firstn.
    reflexivity.
Qed.

Lemma output_arrays_aligned_witness :
  In (WriteJson "out/result.json" sample_output)
     (run_events (main sample_similarity argsort_stable sample_inputs))
  /\ exists query chunks,
       generate_intelligent_query (persona sample_inputs)
                                  (job sample_inputs) = Some query
       /\ parse_and_chunk_documents (docs_dir sample_inputs) = Some chunks
       /\ let sections := sorted_sections sample_similarity query chunks in
          let K := Nat.min TOP_SECTIONS (List.length sections) in
          List.length (Extracted_Section sample_output) = K
          /\ List.length (Sub_section_Analysis sample_output) = K
          /\ map importance_rank (Extracted_Section sample_output) = seq 1 K
          /\ map extracted_key (Extracted_Section sample_output)
             = map fst (firstn TOP_SECTIONS sections)
          /\ map analysis_key (Sub_section_Analysis sample_output)
             = map fst (firstn TOP_SECTIONS sections).
Proof.
  split; [vm_compute; right; left; reflexivity|].
  apply (output_arrays_aligned sample_similarity argsort_stable
           sample_inputs "out/result.json" sample_output).
  vm_compute. right. left. reflexivity.
Defined.

(** C7: when the documents yield no chunk, the run does nothing to the
    file system, however it ends: no directory is made and the output file
    is not written; and it returns, without raising, when the persona is a
    JSON object and the embedding model loads. *)
Theorem no_chunks_no_output (similarity : string -> string -> Q)
    (argsort : list Q -> list nat) (inp : inputs) :
  parse_and_chunk_documents (docs_dir inp) = Some [] ->
  run_events (main similarity argsort inp) = []
  /\ written (run_events (main similarity argsort inp)) = []
  /\ (generate_intelligent_query (persona inp) (job inp) <> None ->
      model_loads (surroundings inp) = true ->
      main similarity argsort inp = mkRun [] Returned).
Proof.
  intros H. unfold main. rewrite H.
  destruct (generate_intelligent_query (persona inp) (job inp)) as [query|].
  - destruct (model_loads (surroundings inp)); simpl; auto.
    repeat split; auto. intros _ E. discriminate E.
  - repeat split; auto. intros E. contradiction.
Qed.

Lemma no_chunks_no_output_witness :
  parse_and_chunk_documents (docs_dir sample_blank_inputs) = Some []
  /\ run_events (main sample_similarity argsort_stable sample_blank_inputs)
     = []
  /\ written
       (run_events (main sample_similarity argsort_stable sample_blank_inputs))
     = []
  /\ (generate_intelligent_query (persona sample_blank_inputs)
                                 (job sample_blank_inputs) <> None ->
      model_loads (surroundings sample_blank_inputs) = true ->
      main sample_similarity argsort_stable sample_blank_inputs
      = mkRun [] Returned).
Proof.
  split; [reflexivity|].
  apply (no_chunks_no_output sample_similarity argsort_stable
           sample_blank_inputs).
  reflexivity.
Defined.

(** ** The query *)

Example query_of_empty_persona :
  generate_intelligent_query (JObject []) "summarize quarterly risk"
  = Some "As a None with expertise in None, I need to summarize quarterly risk".
Proof. reflexivity. Qed.

Example query_of_partial_persona :
  generate_intelligent_query (JObject [("role", JStr "Analyst")])
                             "summarize quarterly risk"
  = Some "As a Analyst with expertise in None, I need to summarize quarterly risk".
Proof. reflexivity. Qed.

Example query_of_full_persona :
  generate_intelligent_query (persona sample_inputs) (job sample_inputs)
  = Some "As a Analyst with expertise in finance, I need to summarize quarterly risk".
Proof. reflexivity. Qed.

Example query_of_no_object :
  generate_intelligent_query JNotObject "summarize quarterly risk" = None.
Proof. reflexivity. Qed.

(** C8: for every persona that is a JSON object, and every job, the query
    is composed without raising, and it is the template with the two
    fields of the persona: a field that is present is written as Python
    formats its value (a string as it is), a field that is missing as the
    placeholder "None". *)
Theorem query_composition_total (fields : persona_t) (job : string) :
  exists role expertise : string,
    generate_intelligent_query (JObject fields) job
    = Some ("As a " ++ role ++ " with expertise in " ++ expertise
            ++ ", I need to " ++ job)
    /\ role = match dict_get "role" fields with
              | None => "None"
              | Some (JStr s) => s
              | Some v => py_format (Some v)
              end
    /\ expertise = match dict_get "expertise" fields with
                   | None => "None"
                   | Some (JStr s) => s
                   | Some v => py_format (Some v)
                   end.
Proof.
  exists (py_format (dict_get "role" fields)),
         (py_format (dict_get "expertise" fields)).
  split; [reflexivity|].
  split.
  - destruct (dict_get "role" fields) as [[| | | |]|]; reflexivity.
  - destruct (dict_get "expertise" fields) as [[| | | |]|]; reflexivity.
Qed.

(** * Further properties *)

(** ** Stripping and splitting *)

Lemma rstrip_idempotent (s : string) : PyStr.rstrip (PyStr.rstrip s) = PyStr.rstrip s.
Proof.
  induction s as [|c s IH]; [reflexivity|].
  simpl. destruct (PyStr.rstrip s) as [|c' r] eqn:E.
  - destruct (PyStr.is_space c) eqn:Ec; simpl; [reflexivity|].
    now rewrite Ec.
  - simpl. simpl in IH. rewrite IH. reflexivity.
Qed.

Lemma head_space_lstrip (s : string) : head_space (PyStr.lstrip s) = false.
Proof.
  induction s as [|c s IH]; [reflexivity|].
  simpl. destruct (PyStr.is_space c) eqn:Ec; [exact IH|]. simpl. exact Ec.
Qed.

Lemma rstrip_head (c : ascii) (s : string) :
  PyStr.is_space c = false ->
  PyStr.rstrip (String c s) = String c (PyStr.rstrip s).
Proof.
  intros Hc. simpl. destruct (PyStr.rstrip s); [now rewrite Hc | reflexivity].
Qed.

Lemma lstrip_fixed (s : string) : head_space s = false -> PyStr.lstrip s = s.
Proof. destruct s as [|c s]; simpl; [reflexivity | now intros ->]. Qed.

Lemma head_space_rstrip (s : string) :
  head_space s = false -> head_space (PyStr.rstrip s) = false.
Proof.
  destruct s as [|c s]; [reflexivity|]. intros Hc.
  change (PyStr.is_space c = false) in Hc.
  rewrite (rstrip_head c s Hc). exact Hc.
Qed.

Lemma tail_space_rstrip (s : string) : tail_space (PyStr.rstrip s) = false.
Proof.
  induction s as [|c s IH]; [reflexivity|].
  simpl. destruct (PyStr.rstrip s) as [|c' r] eqn:E.
  - destruct (PyStr.is_space c) eqn:Ec; [reflexivity | exact Ec].
  - exact IH.
Qed.

Lemma strip_trimmed (s : string) : trimmed (PyStr.strip s) = true.
Proof.
  unfold trimmed, PyStr.strip.
  rewrite head_space_rstrip by apply head_space_lstrip.
  now rewrite tail_space_rstrip.
Qed.

Lemma strip_idempotent (s : string) :
  PyStr.strip (PyStr.strip s) = PyStr.strip s.
Proof.
  unfold PyStr.strip.
  rewrite (lstrip_fixed (PyStr.rstrip (PyStr.lstrip s))).
  - apply rstrip_idempotent.
  - apply head_space_rstrip, head_space_lstrip.
Qed.

Lemma contains_lstrip (c : ascii) (s : string) :
  contains c s = false -> contains c (PyStr.lstrip s) = false.
Proof.
  induction s as [|x s IH]; [reflexivity|].
  simpl. intros H. apply orb_false_iff in H. destruct H as [Hx Hs].
  destruct (PyStr.is_space x); [now apply IH|].
  simpl. now rewrite Hx, Hs.
Qed.

Lemma contains_rstrip (c : ascii) (s : string) :
  contains c s = false -> contains c (PyStr.rstrip s) = false.
Proof.
  induction s as [|x s IH]; [reflexivity|].
  simpl. intros H. apply orb_false_iff in H. destruct H as [Hx Hs].
  specialize (IH Hs). destruct (PyStr.rstrip s) as [|y r].
  - destruct (PyStr.is_space x); [reflexivity|]. simpl. now rewrite Hx.
  - simpl in *. now rewrite Hx, IH.
Qed.

Lemma split_not_nil (sep : ascii) (s : string) : PyStr.split sep s <> [].
Proof.
  destruct s as [|c s]; simpl; [discriminate|].
  destruct (Ascii.eqb c sep); [discriminate|].
  destruct (PyStr.split sep s); discriminate.
Qed.

Lemma split_pieces (sep : ascii) (s : string) :
  Forall (fun piece => contains sep piece = false) (PyStr.split sep s).
Proof.
  induction s as [|c s IH]; simpl; [repeat constructor|].
  destruct (Ascii.eqb c sep) eqn:Ec; [now constructor|].
  destruct (PyStr.split sep s) as [|piece rest]; [repeat constructor; simpl; now rewrite Ec|].
  inversion IH; subst. constructor; [|assumption].
  simpl. rewrite Ec. assumption.
Qed.

Lemma split_join (sep : ascii) (s : string) :
  PyStr.join (String sep "") (PyStr.split sep s) = s.
Proof.
  unfold PyStr.join. induction s as [|c s IH]; [reflexivity|].
  simpl. destruct (Ascii.eqb c sep) eqn:Ec.
  - apply Ascii.eqb_eq in Ec. subst c.
    destruct (PyStr.split sep s) as [|piece rest] eqn:E.
    + now apply split_not_nil in E.
    + simpl. simpl in IH. now rewrite IH.
  - destruct (PyStr.split sep s) as [|piece rest] eqn:E.
    + now apply split_not_nil in E.
    + destruct rest as [|p2 rest]; simpl in *; now rewrite IH.
Qed.

Lemma sentences_of_clean (full_text s : string) :
  In s (sentences_of full_text) ->
  contains "." s = false /\ trimmed s = true.
Proof.
  unfold sentences_of. intros Hs. apply in_map_iff in Hs.
  destruct Hs as [piece [<- Hp]]. apply filter_In in Hp.
  destruct Hp as [Hp _]. split; [|apply strip_trimmed].
  pose proof (split_pieces "." full_text) as Hall.
  rewrite Forall_forall in Hall. specialize (Hall piece Hp).
  unfold PyStr.strip. now apply contains_rstrip, contains_lstrip.
Qed.

(** X1: every sentence that the summary works on is a non-empty piece of
    the text between two full stops, without the full stops and without
    white space at its ends. *)
Theorem sentences_of_shape (full_text : string) :
  Forall (fun s => PyStr.truthy s = true
                   /\ contains "." s = false
                   /\ trimmed s = true)
         (sentences_of full_text).
Proof.
  apply Forall_forall. intros s Hs. split.
  - now apply (sentences_of_truthy full_text).
  - now apply (sentences_of_clean full_text).
Qed.

(** X2: splitting a text at the full stops loses nothing: the pieces hold
    no full stop, there is at least one piece, and joined again with "."
    they are the text. *)
Theorem split_at_stops_round_trip (full_text : string) :
  PyStr.join "." (PyStr.split "." full_text) = full_text
  /\ PyStr.split "." full_text <> []
  /\ Forall (fun piece => contains "." piece = false)
            (PyStr.split "." full_text).
Proof.
  split; [apply split_join|]. split; [apply split_not_nil | apply split_pieces].
Qed.

(** ** Loading *)

(** X3: when the inputs load, the job text is the text of the job file
    stripped: it has no white space at its ends and stripping it again
    changes nothing; the persona is what [json.load] made of the persona
    file. *)
Theorem load_inputs_job_stripped {value : Type}
    (read : string -> option string) (json_load : string -> option value)
    (persona_path job_path : string) (persona : value) (job : string) :
  load_inputs read json_load persona_path job_path = Some (persona, job) ->
  (exists persona_text job_text,
      read persona_path = Some persona_text
      /\ json_load persona_text = Some persona
      /\ read job_path = Some job_text
      /\ job = PyStr.strip job_text)
  /\ trimmed job = true
  /\ PyStr.strip job = job.
Proof.
  unfold load_inputs. intros H.
  destruct (read persona_path) as [pt|] eqn:Ep; [|discriminate H].
  destruct (json_load pt) as [pv|] eqn:Ej; [|discriminate H].
  destruct (read job_path) as [jt|] eqn:Er; [|discriminate H].
  inversion H; subst. split; [|split].
  - exists pt, jt. auto.
  - apply strip_trimmed.
  - apply strip_idempotent.
Qed.

Lemma load_inputs_job_stripped_witness :
  load_inputs sample_read sample_json_load "persona.json" "job.txt"
  = Some (JObject [], "summarize quarterly risk")
  /\ (exists persona_text job_text,
        sample_read "persona.json" = Some persona_text
        /\ sample_json_load persona_text = Some (JObject [])
        /\ sample_read "job.txt" = Some job_text
        /\ "summarize quarterly risk" = PyStr.strip job_text)
  /\ trimmed "summarize quarterly risk" = true
  /\ PyStr.strip "summarize quarterly risk" = "summarize quarterly risk".
Proof.
  split; [reflexivity|].
  apply (load_inputs_job_stripped sample_read sample_json_load
           "persona.json" "job.txt" (JObject []) "summarize quarterly risk").
  reflexivity.
Defined.

(** ** Sizes of chunks *)

Lemma substring_length (i n : nat) (s : string) :
  String.length (substring i n s) = Nat.min n (String.length s - i).
Proof.
  revert i n; induction s as [|c s IH]; intros i n.
  - destruct i, n; reflexivity.
  - destruct i as [|i].
    + destruct n as [|n]; simpl; [reflexivity|].
      rewrite (IH 0 n), Nat.sub_0_r. reflexivity.
    + simpl. apply IH.
Qed.

Lemma range_step_below (stop step i : nat) :
  0 < step -> i < (stop + step - 1) / step -> i * step < stop.
Proof.
  intros Hs Hi.
  pose proof (Nat.div_mod_eq (stop + step - 1) step) as E.
  pose proof (Nat.mod_upper_bound (stop + step - 1) step ltac:(lia)) as B.
  remember ((stop + step - 1) / step) as q eqn:Eq.
  remember ((stop + step - 1) mod step) as r eqn:Er.
  assert (H : S i * step <= q * step) by (apply Nat.mul_le_mono_r; lia).
  rewrite (Nat.mul_comm step q) in E. simpl in H. lia.
Qed.

Lemma range_step_full (stop step i : nat) :
  0 < step -> S i < (stop + step - 1) / step -> S i * step <= stop.
Proof.
  intros Hs Hi. pose proof (range_step_below stop step (S i) Hs Hi). lia.
Qed.

Lemma strip_truthy_nonempty (t : string) :
  PyStr.truthy (PyStr.strip t) = true -> 0 < String.length t.
Proof. destruct t; simpl; [discriminate | lia]. Qed.

(** X4: a page with text of [n] characters is cut into
    [ceil(n / size)] chunks, at least one; none is empty, and every chunk
    but the last has [size] characters exactly. *)
Theorem chunk_texts_sizes (size : nat) (page_text : string) :
  0 < size ->
  PyStr.truthy (PyStr.strip page_text) = true ->
  let chunks := chunk_texts size page_text in
  let n := String.length page_text in
  List.length chunks = (n + size - 1) / size
  /\ 0 < List.length chunks
  /\ (forall i, i < List.length chunks ->
        String.length (nth i chunks "") = Nat.min size (n - i * size)
        /\ 0 < String.length (nth i chunks ""))
  /\ (forall i, S i < List.length chunks ->
        String.length (nth i chunks "") = size).
Proof.
  intros Hs Ht chunks n.
  assert (Hlen : List.length chunks = (n + size - 1) / size).
  { unfold chunks, chunk_texts, PyStr.range_step.
    now rewrite Ht, !length_map, length_seq. }
  assert (Hnth : forall i, i < List.length chunks ->
                 nth i chunks "" = substring (i * size) size page_text).
  { intros i Hi. unfold chunks, chunk_texts, PyStr.range_step in *.
    rewrite Ht in *. rewrite map_map in *. rewrite length_map, length_seq in Hi.
    rewrite (nth_indep _ "" (PyStr.slice (0 * size) size page_text))
      by now rewrite length_map, length_seq.
    rewrite (map_nth (fun k => PyStr.slice (k * size) size page_text)
                     (seq 0 ((String.length page_text + size - 1) / size))
                     0 i).
    rewrite seq_nth by exact Hi. reflexivity. }
  pose proof (strip_truthy_nonempty page_text Ht) as Hpos. fold n in Hpos.
  split; [exact Hlen|]. split.
  - rewrite Hlen.
    pose proof (range_step_covers n size Hs) as Hc.
    destruct ((n + size - 1) / size); [simpl in Hc; lia | lia].
  - split.
    + intros i Hi. rewrite (Hnth i Hi), substring_length. fold n.
      split; [reflexivity|].
      rewrite Hlen in Hi. pose proof (range_step_below n size i Hs Hi). lia.
    + intros i Hi. rewrite (Hnth i) by lia. rewrite substring_length. fold n.
      rewrite Hlen in Hi. pose proof (range_step_full n size i Hs Hi) as Hf.
      simpl in Hf. lia.
Qed.

Lemma chunk_texts_sizes_witness :
  0 < 3
  /\ PyStr.truthy (PyStr.strip "abcdefgh") = true
  /\ let chunks := chunk_texts 3 "abcdefgh" in
     let n := String.length "abcdefgh" in
     List.length chunks = (n + 3 - 1) / 3
     /\ 0 < List.length chunks
     /\ (forall i, i < List.length chunks ->
           String.length (nth i chunks "") = Nat.min 3 (n - i * 3)
           /\ 0 < String.length (nth i chunks ""))
     /\ (forall i, S i < List.length chunks ->
           String.length (nth i chunks "") = 3).
Proof.
  split; [lia|]. split; [reflexivity|].
  apply (chunk_texts_sizes 3 "abcdefgh"); [lia | reflexivity].
Defined.

(** ** Chunks of a directory *)

Lemma chunk_texts_member (size : nat) (page_text x : string) :
  0 < size -> In x (chunk_texts size page_text) ->
  0 < String.length x <= size.
Proof.
  intros Hs Hx. unfold chunk_texts in Hx.
  destruct (PyStr.truthy (PyStr.strip page_text)); [|contradiction].
  apply in_map_iff in Hx. destruct Hx as [i [<- Hi]].
  unfold PyStr.range_step in Hi. apply in_map_iff in Hi.
  destruct Hi as [k [<- Hk]]. apply in_seq in Hk.
  unfold PyStr.slice. rewrite substring_length.
  pose proof (range_step_below (String.length page_text) size k Hs
                ltac:(lia)).
  lia.
Qed.

Lemma chunk_texts_blank (size : nat) (page_text : string) :
  0 < size ->
  (chunk_texts size page_text = [] <-> blank page_text = true).
Proof.
  intros Hs. unfold blank, chunk_texts.
  destruct (PyStr.truthy (PyStr.strip page_text)) eqn:Ht; simpl.
  - split; [|discriminate]. intros H. exfalso.
    pose proof (strip_truthy_nonempty page_text Ht) as Hpos.
    pose proof (range_step_covers (String.length page_text) size Hs) as Hc.
    unfold PyStr.range_step in H.
    destruct ((String.length page_text + size - 1) / size);
      [simpl in Hc; lia | discriminate H].
  - split; reflexivity.
Qed.

(** [enumerate(l, a)] pairs the number [p] with the item at [p - a]. *)
Lemma in_enumerate {A : Type} (l : list A) (a p : nat) (x : A) :
  In (p, x) (combine (seq a (List.length l)) l)
  <-> a <= p /\ nth_error l (p - a) = Some x.
Proof.
  revert a. induction l as [|y l IH]; intros a; simpl.
  - split; [contradiction|]. intros [_ H]. now destruct (p - a).
  - rewrite IH. split.
    + intros [H | [Hle Hn]].
      * inversion H; subst. now rewrite Nat.sub_diag.
      * split; [lia|]. replace (p - a) with (S (p - S a)) by lia. exact Hn.
    + intros [Hle Hn]. destruct (Nat.eq_dec a p) as [-> | Hne].
      * rewrite Nat.sub_diag in Hn. simpl in Hn. inversion Hn. now left.
      * right. split; [lia|].
        replace (p - a) with (S (p - S a)) in Hn by lia. exact Hn.
Qed.

Lemma in_chunk_document (size : nat) (f : string) (pages : list string)
    (c : chunk) :
  In c (chunk_document size f pages) <->
  doc_name c = f
  /\ 1 <= page_num c
  /\ exists page_text,
       nth_error pages (page_num c - 1) = Some page_text
       /\ In (text c) (chunk_texts size page_text).
Proof.
  unfold chunk_document. rewrite in_flat_map. split.
  - intros [[p t] [Hp Hc]]. apply in_enumerate in Hp. simpl in Hc.
    unfold chunk_page in Hc. apply in_map_iff in Hc.
    destruct Hc as [x [<- Hx]]. simpl. destruct Hp as [Hle Hn].
    split; [reflexivity|]. split; [exact Hle|]. exists t. auto.
  - intros [Hf [Hle [t [Hn Hx]]]].
    exists (page_num c, t). split; [now apply in_enumerate|].
    simpl. unfold chunk_page. apply in_map_iff. exists (text c).
    split; [|exact Hx]. destruct c; simpl in *. now subst.
Qed.

Lemma in_chunk_files (files : list (string * option (list string)))
    (chunks : list chunk) (c : chunk) :
  chunk_files files = Some chunks ->
  (In c chunks <->
   exists pages,
     In (doc_name c, Some pages) files
     /\ is_pdf (doc_name c) = true
     /\ In c (chunk_document CHUNK_SIZE (doc_name c) pages)).
Proof.
  revert chunks. induction files as [|[f doc] rest IH]; intros chunks H.
  - simpl in H. inversion H; subst. split; [intros [] | intros [? [[] _]]].
  - simpl in H. destruct (is_pdf f) eqn:Ep.
    + destruct doc as [pages|]; [|discriminate H].
      destruct (chunk_files rest) as [more|]; [|discriminate H].
      inversion H; subst. rewrite in_app_iff, (IH more eq_refl). split.
      * intros [Hc | [pages' [H1 [H2 H3]]]].
        -- assert (E : doc_name c = f)
             by (apply in_chunk_document in Hc; tauto).
           subst f. exists pages. simpl. auto.
        -- exists pages'. simpl. auto.
      * intros [pages' [[H1 | H1] [H2 H3]]].
        -- inversion H1; subst. now left.
        -- right. exists pages'. auto.
    + rewrite (IH chunks H). split.
      * intros [pages [H1 [H2 H3]]]. exists pages. simpl. auto.
      * intros [pages [[H1 | H1] [H2 H3]]].
        -- inversion H1; subst. congruence.
        -- exists pages. auto.
Qed.

(** X5: every chunk comes from a page with text of a PDF of the
    directory: its document is a file of the listing whose name ends in
    ".pdf" in any case, its page number is the number (from 1) of a page
    of that file that is not blank, and its text is a piece of that page
    of 1 to [CHUNK_SIZE] characters. *)
Theorem chunk_provenance (docs_dir : directory) (chunks : list chunk)
    (c : chunk) :
  parse_and_chunk_documents docs_dir = Some chunks ->
  In c chunks ->
  exists files pages page_text,
    docs_dir = Some files
    /\ In (doc_name c, Some pages) files
    /\ is_pdf (doc_name c) = true
    /\ 1 <= page_num c <= List.length pages
    /\ nth_error pages (page_num c - 1) = Some page_text
    /\ blank page_text = false
    /\ In (text c) (chunk_texts CHUNK_SIZE page_text)
    /\ 0 < String.length (text c) <= CHUNK_SIZE.
Proof.
  intros Hp Hc. destruct docs_dir as [files|]; [|discriminate Hp].
  simpl in Hp. apply (in_chunk_files files chunks c Hp) in Hc.
  destruct Hc as [pages [Hf [Hpdf Hc]]].
  apply in_chunk_document in Hc. destruct Hc as [_ [Hle [t [Hn Hx]]]].
  exists files, pages, t.
  assert (Hlt : page_num c - 1 < List.length pages).
  { apply nth_error_Some. congruence. }
  repeat split; try assumption; try lia.
  - unfold blank. unfold chunk_texts in Hx.
    destruct (PyStr.truthy (PyStr.strip t)); [reflexivity | contradiction].
  - apply (chunk_texts_member CHUNK_SIZE t); [unfold CHUNK_SIZE; lia|exact Hx].
  - apply (chunk_texts_member CHUNK_SIZE t); [unfold CHUNK_SIZE; lia|exact Hx].
Qed.

Lemma chunk_provenance_witness :
  parse_and_chunk_documents (docs_dir sample_inputs) = Some sample_chunks
  /\ In (mkChunk "S2" "a.pdf" 4) sample_chunks
  /\ exists files pages page_text,
       docs_dir sample_inputs = Some files
       /\ In ("a.pdf", Some pages) files
       /\ is_pdf "a.pdf" = true
       /\ 1 <= 4 <= List.length pages
       /\ nth_error pages (4 - 1) = Some page_text
       /\ blank page_text = false
       /\ In "S2" (chunk_texts CHUNK_SIZE page_text)
       /\ 0 < String.length "S2" <= CHUNK_SIZE.
Proof.
  split; [vm_compute; reflexivity|]. split; [vm_compute; tauto|].
  apply (chunk_provenance (docs_dir sample_inputs) sample_chunks
           (mkChunk "S2" "a.pdf" 4)).
  - vm_compute. reflexivity.
  - vm_compute. tauto.
Defined.

Lemma flat_map_nil {A B : Type} (f : A -> list B) (l : list A) :
  flat_map f l = [] <-> forall x, In x l -> f x = [].
Proof.
  induction l as [|a l IH]; simpl; [tauto|]. split.
  - intros H. apply app_eq_nil in H. destruct H as [Ha Hl].
    intros x [<- | Hx]; [exact Ha | now apply IH].
  - intros H. rewrite (H a) by now left. simpl. apply IH.
    intros x Hx. apply H. now right.
Qed.

Lemma chunk_document_nil (size : nat) (f : string) (pages : list string) :
  0 < size ->
  (chunk_document size f pages = [] <->
   forall page_text, In page_text pages -> blank page_text = true).
Proof.
  intros Hs. unfold chunk_document. rewrite flat_map_nil. split.
  - intros H t Ht. apply In_nth_error in Ht. destruct Ht as [n Hn].
    specialize (H (S n, t)). simpl in H.
    apply (chunk_texts_blank size t Hs).
    assert (Hin : In (S n, t) (combine (seq 1 (List.length pages)) pages)).
    { apply in_enumerate. split; [lia|]. simpl. now rewrite Nat.sub_0_r. }
    specialize (H Hin). unfold chunk_page in H.
    now apply map_eq_nil in H.
  - intros H [p t] Hp. simpl. apply in_combine_r in Hp. unfold chunk_page.
    assert (E : chunk_texts size t = []).
    { apply (chunk_texts_blank size t Hs). now apply H. }
    now rewrite E.
Qed.

Lemma chunk_files_nil (files : list (string * option (list string))) :
  chunk_files files = Some [] <->
  forall f doc,
    In (f, doc) files -> is_pdf f = true ->
    exists pages,
      doc = Some pages
      /\ forall page_text, In page_text pages -> blank page_text = true.
Proof.
  assert (Hsize : 0 < CHUNK_SIZE) by (unfold CHUNK_SIZE; lia).
  induction files as [|[f doc] rest IH]; simpl.
  - split; [intros _ ? ? [] | reflexivity].
  - destruct (is_pdf f) eqn:Ep.
    + destruct doc as [pages|].
      * destruct (chunk_files rest) as [more|] eqn:Er.
        -- split.
           ++ intros H. inversion H as [E]. apply app_eq_nil in E.
              destruct E as [E1 E2]. subst more.
              intros f' doc' [Hin | Hin] Hpdf.
              ** inversion Hin; subst. exists pages. split; [reflexivity|].
                 now apply (chunk_document_nil CHUNK_SIZE f' pages Hsize).
              ** destruct IH as [IH _]. now apply (IH eq_refl f' doc').
           ++ intros H.
              destruct (H f (Some pages) (or_introl eq_refl) Ep)
                as [pages' [E Hb]].
              inversion E; subst pages'.
              apply (chunk_document_nil CHUNK_SIZE f pages Hsize) in Hb.
              rewrite Hb. simpl.
              destruct IH as [_ IH]. rewrite IH; [reflexivity|].
              intros f' doc' Hin. apply H. now right.
        -- split; [discriminate|]. intros H.
           destruct IH as [_ IH]. rewrite IH; [reflexivity|].
           intros f' doc' Hin. apply H. now right.
      * split; [discriminate|]. intros H.
        destruct (H f None (or_introl eq_refl) Ep) as [pages [E _]].
        discriminate E.
    + rewrite IH. split.
      * intros H f' doc' [Hin | Hin] Hpdf; [|now apply (H f' doc')].
        inversion Hin; subst. congruence.
      * intros H f' doc' Hin. apply H. now right.
Qed.

(** X6: the directory yields no chunk, without raising, exactly when it
    can be listed and every PDF in it can be opened and has blank pages
    only; files that are not PDFs do not count. *)
Theorem no_chunks_iff_all_blank (docs_dir : directory) :
  parse_and_chunk_documents docs_dir = Some [] <->
  exists files,
    docs_dir = Some files
    /\ forall f doc,
         In (f, doc) files -> is_pdf f = true ->
         exists pages,
           doc = Some pages
           /\ forall page_text,
                In page_text pages -> blank page_text = true.
Proof.
  destruct docs_dir as [files|]; simpl.
  - rewrite chunk_files_nil. split.
    + intros H. exists files. auto.
    + intros [files' [E H]]. inversion E; subst. exact H.
  - split; [discriminate | intros [files [E _]]; discriminate E].
Qed.

Lemma filter_chunk_page (size : nat) (f : string) (a p : nat) (t : string) :
  filter (fun c => page_num c =? p) (chunk_page size f a t)
  = if a =? p then chunk_page size f a t else [].
Proof.
  unfold chunk_page. induction (chunk_texts size t) as [|x l IH]; simpl.
  - now destruct (a =? p).
  - rewrite IH. now destruct (a =? p).
Qed.

Lemma filter_page_enumerate (size : nat) (f : string) (pages : list string)
    (a p : nat) :
  filter (fun c => page_num c =? p)
         (flat_map (fun q => chunk_page size f (fst q) (snd q))
                   (combine (seq a (List.length pages)) pages))
  = match nth_error pages (p - a) with
    | Some t => if a <=? p then chunk_page size f p t else []
    | None => []
    end.
Proof.
  revert a. induction pages as [|t0 rest IH]; intros a.
  - simpl. now destruct (p - a).
  - cbn [List.length seq combine flat_map fst snd].
    rewrite filter_app, filter_chunk_page, IH.
    destruct (Nat.lt_trichotomy a p) as [Hlt | [-> | Hgt]].
    + replace (p - a) with (S (p - S a)) by lia. simpl nth_error.
      assert (E1 : (a =? p) = false) by (apply Nat.eqb_neq; lia).
      assert (E2 : (a <=? p) = true) by (apply Nat.leb_le; lia).
      assert (E3 : (S a <=? p) = true) by (apply Nat.leb_le; lia).
      now rewrite E1, E2, E3.
    + rewrite Nat.eqb_refl, Nat.leb_refl, Nat.sub_diag. simpl nth_error.
      assert (E3 : (S p <=? p) = false) by (apply Nat.leb_gt; lia).
      rewrite E3. destruct (nth_error rest (p - S p)); apply app_nil_r.
    + assert (E1 : (a =? p) = false) by (apply Nat.eqb_neq; lia).
      assert (E2 : (a <=? p) = false) by (apply Nat.leb_gt; lia).
      assert (E3 : (S a <=? p) = false) by (apply Nat.leb_gt; lia).
      rewrite E1, E2, E3.
      destruct (nth_error rest (p - S a)), (nth_error (t0 :: rest) (p - a));
        reflexivity.
Qed.

(** X7: the pages of a document can be read back from its chunks: the
    chunks that carry page number [p] are the chunks of page [p], in their
    order, and for a page with text their texts concatenate to the text of
    the page. *)
Theorem document_pages_recovered (size : nat) (f : string)
    (pages : list string) (p : nat) (page_text : string) :
  0 < size -> 1 <= p ->
  nth_error pages (p - 1) = Some page_text ->
  let of_page :=
    filter (fun c => page_num c =? p) (chunk_document size f pages) in
  of_page = chunk_page size f p page_text
  /\ (blank page_text = false ->
      String.concat "" (map text of_page) = page_text)
  /\ (blank page_text = true -> of_page = []).
Proof.
  intros Hs Hp Hn of_page.
  assert (E : of_page = chunk_page size f p page_text).
  { unfold of_page, chunk_document. rewrite filter_page_enumerate, Hn.
    assert (E2 : (1 <=? p) = true) by now apply Nat.leb_le.
    now rewrite E2. }
  split; [exact E|]. rewrite E. split.
  - intros Hb. rewrite chunk_page_texts. apply chunk_texts_concat; [exact Hs|].
    unfold blank in Hb. now apply negb_false_iff in Hb.
  - intros Hb. unfold chunk_page.
    apply (chunk_texts_blank size page_text Hs) in Hb. now rewrite Hb.
Qed.

Lemma document_pages_recovered_witness :
  0 < 3 /\ 1 <= 2
  /\ nth_error ["abcdefgh"; "ijklm"; "  "] (2 - 1) = Some "ijklm"
  /\ let of_page :=
       filter (fun c => page_num c =? 2)
              (chunk_document 3 "a.pdf" ["abcdefgh"; "ijklm"; "  "]) in
     of_page = chunk_page 3 "a.pdf" 2 "ijklm"
     /\ (blank "ijklm" = false -> String.concat "" (map text of_page) = "ijklm")
     /\ (blank "ijklm" = true -> of_page = []).
Proof.
  split; [lia|]. split; [lia|]. split; [reflexivity|].
  apply (document_pages_recovered 3 "a.pdf" ["abcdefgh"; "ijklm"; "  "] 2
           "ijklm"); [lia | lia | reflexivity].
Defined.

Lemma enumerate_pages_ordered (size : nat) (f : string) (pages : list string)
    (a : nat) :
  let chunks := flat_map (fun q => chunk_page size f (fst q) (snd q))
                         (combine (seq a (List.length pages)) pages) in
  StronglySorted (fun c d => page_num c <= page_num d) chunks
  /\ Forall (fun c => a <= page_num c) chunks.
Proof.
  revert a. induction pages as [|t rest IH]; intros a.
  - simpl. split; constructor.
  - cbn [List.length seq combine flat_map fst snd].
    destruct (IH (S a)) as [Hs Hf]. unfold chunk_page at 1 3.
    induction (chunk_texts size t) as [|x l IHl]; simpl.
    + split; [exact Hs|]. revert Hf. apply Forall_impl. intros c. lia.
    + destruct IHl as [Hs' Hf']. split.
      * constructor; [exact Hs'|]. simpl. exact Hf'.
      * constructor; [simpl; lia | exact Hf'].
Qed.

Lemma chunk_files_app (files1 files2 : list (string * option (list string))) :
  chunk_files (files1 ++ files2)
  = match chunk_files files1, chunk_files files2 with
    | Some chunks1, Some chunks2 => Some (chunks1 ++ chunks2)%list
    | _, _ => None
    end.
Proof.
  induction files1 as [|[f doc] rest IH]; simpl.
  - now destruct (chunk_files files2).
  - destruct (is_pdf f); [|exact IH].
    destruct doc as [pages|]; [|reflexivity].
    rewrite IH. destruct (chunk_files rest), (chunk_files files2);
      try reflexivity.
    now rewrite app_assoc.
Qed.

(** X8: the chunks of the directory keep the order of the listing (the
    chunks of a listing in two parts are those of the first part followed
    by those of the second, if both can be read), and within a document
    the page numbers of its chunks never go down. *)
Theorem chunks_in_reading_order
    (files1 files2 : list (string * option (list string)))
    (size : nat) (f : string) (pages : list string) :
  parse_and_chunk_documents (Some (files1 ++ files2)%list)
  = match parse_and_chunk_documents (Some files1),
          parse_and_chunk_documents (Some files2) with
    | Some chunks1, Some chunks2 => Some (chunks1 ++ chunks2)%list
    | _, _ => None
    end
  /\ StronglySorted (fun c d => page_num c <= page_num d)
                    (chunk_document size f pages).
Proof.
  split.
  - simpl. apply chunk_files_app.
  - apply (enumerate_pages_ordered size f pages 1).
Qed.

(** ** File names *)

Lemma lower_length (s : string) :
  String.length (PyStr.lower s) = String.length s.
Proof. induction s as [|c s IH]; simpl; [reflexivity | now rewrite IH]. Qed.

Lemma lower_app (a b : string) :
  PyStr.lower (a ++ b) = PyStr.lower a ++ PyStr.lower b.
Proof. induction a as [|c a IH]; simpl; [reflexivity | now rewrite IH]. Qed.

Lemma lower_substring (i n : nat) (s : string) :
  PyStr.lower (substring i n s) = substring i n (PyStr.lower s).
Proof.
  revert i n; induction s as [|c s IH]; intros i n.
  - destruct i, n; reflexivity.
  - destruct i as [|i].
    + destruct n as [|n]; simpl; [reflexivity|]. now rewrite (IH 0 n).
    + simpl. apply IH.
Qed.

Lemma substring_app_suffix (a b : string) :
  substring (String.length a) (String.length b) (a ++ b) = b.
Proof.
  induction a as [|c a IH]; simpl; [|exact IH].
  apply substring_whole. lia.
Qed.

Lemma endswith_iff (s suffix : string) :
  PyStr.endswith s suffix = true <-> exists front, s = front ++ suffix.
Proof.
  unfold PyStr.endswith. rewrite andb_true_iff, Nat.leb_le, String.eqb_eq.
  split.
  - intros [Hle E].
    exists (substring 0 (String.length s - String.length suffix) s).
    rewrite <- E at 2.
    rewrite (substring_adjacent 0). symmetry. apply substring_whole. lia.
  - intros [front ->]. rewrite length_append. split; [lia|].
    replace (String.length front + String.length suffix - String.length suffix)
      with (String.length front) by lia.
    apply substring_app_suffix.
Qed.

(** X9: a file is taken for a PDF exactly when its name ends in ".pdf"
    written in any mix of upper and lower case. *)
Theorem is_pdf_iff (filename : string) :
  is_pdf filename = true <->
  exists stem ext, filename = stem ++ ext /\ PyStr.lower ext = ".pdf".
Proof.
  unfold is_pdf. split.
  - intros H. apply andb_true_iff in H. destruct H as [Hle E].
    apply Nat.leb_le in Hle. apply String.eqb_eq in E.
    rewrite lower_length in Hle, E. simpl in Hle.
    set (n := String.length filename) in *.
    exists (substring 0 (n - 4) filename), (substring (n - 4) 4 filename).
    split.
    + rewrite (substring_adjacent 0). symmetry. apply substring_whole.
      unfold n. lia.
    + rewrite lower_substring. exact E.
  - intros [stem [ext [-> E]]]. apply endswith_iff.
    exists (PyStr.lower stem). now rewrite lower_app, E.
Qed.

(** ** Sections *)

Lemma concat_empty_snoc (l : list string) (x : string) :
  String.concat "" (l ++ [x]) = String.concat "" l ++ x.
Proof.
  induction l as [|y l IH].
  - simpl. reflexivity.
  - change ((y :: l) ++ [x])%list with (y :: (l ++ [x]))%list.
    rewrite !concat_empty_cons, IH. now rewrite append_assoc.
Qed.

Lemma filter_unseen (k : key) (cs : list scored_chunk) :
  List.length cs <= first_seen k cs ->
  filter (fun c => key_eqb (chunk_key c) k) cs = [].
Proof.
  induction cs as [|c cs IH]; simpl; [reflexivity|].
  destruct (key_eqb (chunk_key c) k); [lia|]. intros H. apply IH. lia.
Qed.

(** X10: the text of a section is the texts of its chunks, in chunk
    order, each followed by one space. *)
Theorem section_text_is_chunk_texts (chunks : list scored_chunk) :
  Forall (fun e =>
            sec_text (snd e)
            = String.concat ""
                (map (fun c => text (chunk_of c) ++ " ")
                     (filter (fun c => key_eqb (chunk_key c) (fst e)) chunks)))
         (group_sections chunks).
Proof.
  apply Forall_forall. intros [k s]. simpl. revert k s.
  induction chunks as [|c cs IH] using rev_ind; intros k s Hin.
  - contradiction.
  - rewrite group_sections_snoc in Hin.
    apply group_step_In in Hin; [|apply group_sections_NoDup].
    rewrite filter_app, map_app. simpl.
    destruct Hin as [[Hk Hin] | [Hk [s0 [Hs0 Hs]]]].
    + assert (E : key_eqb (chunk_key c) k = false)
        by (apply key_eqb_neq; congruence).
      rewrite E. simpl. rewrite app_nil_r. now apply IH.
    + assert (E : key_eqb (chunk_key c) k = true)
        by (apply key_eqb_eq; congruence).
      rewrite E. simpl. rewrite concat_empty_snoc. subst s. simpl. f_equal.
      destruct Hs0 as [Hs0 | [Hnk ->]]; [now apply IH|].
      simpl. rewrite filter_unseen; [reflexivity|].
      assert (Hn : ~ In k (map fst (group_sections cs)))
        by (rewrite <- has_key_In; congruence).
      rewrite group_sections_keys in Hn. lia.
Qed.

Lemma first_seen_exists (k : key) (cs : list scored_chunk) :
  first_seen k cs < List.length cs <-> exists c, In c cs /\ chunk_key c = k.
Proof.
  induction cs as [|c cs IH]; simpl.
  - split; [lia | intros [c [[] _]]].
  - destruct (key_eqb (chunk_key c) k) eqn:E.
    + apply key_eqb_eq in E. split; [|lia]. intros _. exists c. auto.
    + apply key_eqb_neq in E. rewrite <- Nat.succ_lt_mono, IH. split.
      * intros [c' [H1 H2]]. exists c'. auto.
      * intros [c' [[-> | H1] H2]]; [contradiction|]. exists c'. auto.
Qed.

(** X11: there is one section for each (document, page) that has a
    chunk, and no other: the keys of the sections are the keys of the
    chunks, each once, so there are at most as many sections as chunks. *)
Theorem sections_are_the_chunk_keys (chunks : list scored_chunk) :
  NoDup (map fst (group_sections chunks))
  /\ (forall k, In k (map fst (group_sections chunks))
                <-> exists c, In c chunks /\ chunk_key c = k)
  /\ List.length (group_sections chunks) <= List.length chunks.
Proof.
  split; [apply group_sections_NoDup|]. split.
  - intros k. rewrite group_sections_keys. apply first_seen_exists.
  - rewrite <- (length_map fst), <- (length_map chunk_key chunks).
    apply NoDup_incl_length; [apply group_sections_NoDup|].
    intros k Hk. apply group_sections_keys, first_seen_exists in Hk.
    destruct Hk as [c [Hc <-]]. now apply in_map.
Qed.

Lemma maximum_spec (l : list Q) :
  l <> [] ->
  exists m, maximum l = Some m
            /\ Forall (fun x => (x <= m)%Q) l
            /\ exists x, In x l /\ (x == m)%Q.
Proof.
  induction l as [|a l IH]; [congruence|]. intros _.
  destruct l as [|b l].
  - exists a. simpl. repeat split; [repeat constructor; lra|].
    exists a. split; [now left | reflexivity].
  - destruct IH as [m [Hm [Hall [x [Hx Hxm]]]]]; [discriminate|].
    exists (Qmax a m). split.
    + change (maximum (a :: b :: l))
        with (match maximum (b :: l) with
              | None => Some a
              | Some m' => Some (Qmax a m')
              end).
      now rewrite Hm.
    + destruct (Q.max_spec a m) as [[Hlt He] | [Hle He]].
      * split.
        -- constructor; [lra|]. revert Hall. apply Forall_impl.
           intros y Hy. lra.
        -- exists x. split; [now right | lra].
      * split.
        -- constructor; [lra|]. revert Hall. apply Forall_impl.
           intros y Hy. lra.
        -- exists a. split; [now left | lra].
Qed.

(** X12: the [max_score] of a section is the greater of 0 and the
    greatest score of its chunks; it is the greatest score of its chunks
    whenever that is not negative. *)
Theorem max_score_formula (chunks : list scored_chunk) :
  Forall (fun e =>
            exists m,
              maximum (scores_of (fst e) chunks) = Some m
              /\ (max_score (snd e) == Qmax 0 m)%Q
              /\ ((0 <= m)%Q -> (max_score (snd e) == m)%Q))
         (group_sections chunks).
Proof.
  apply Forall_forall. intros [k s] Hin. simpl.
  apply group_sections_max_score in Hin.
  destruct Hin as [H0 [Hall [Hin Hne]]].
  destruct (maximum_spec _ Hne) as [m [Hm [Hle [x [Hx Hxm]]]]].
  exists m. split; [exact Hm|].
  rewrite Forall_forall in Hall, Hle.
  assert (Hxs : (x <= max_score s)%Q) by now apply Hall.
  assert (Hcase : (max_score s == 0 /\ m <= 0)%Q \/ (max_score s == m)%Q).
  { destruct Hin as [E | Hmem].
    - left. rewrite E. split; [reflexivity|]. rewrite E in Hxs. lra.
    - right. specialize (Hle _ Hmem). lra. }
  destruct (Q.max_spec 0 m) as [[Hlt He] | [Hge He]]; split; intros; lra.
Qed.

(** X13: a section that is left out of the first [TOP_SECTIONS] of the
    ranking has no greater [max_score] than a section that is in. *)
Theorem top_sections_dominate (chunks : list scored_chunk) :
  let sorted := sort_sections (group_sections chunks) in
  Forall (fun a =>
            Forall (fun b => (max_score (snd b) <= max_score (snd a))%Q)
                   (skipn TOP_SECTIONS sorted))
         (firstn TOP_SECTIONS sorted).
Proof.
  intros sorted. pose proof (sort_sections_order chunks) as Hs.
  fold sorted in Hs. rewrite <- (firstn_skipn TOP_SECTIONS sorted) in Hs.
  apply StronglySorted_app_inv in Hs. destruct Hs as [_ [_ Hc]].
  apply Forall_forall. intros a Ha. apply Forall_forall. intros b Hb.
  destruct (Hc a b Ha Hb) as [H | [H _]]; lra.
Qed.

(** ** Summaries *)

Lemma increasing_NoDup (l : list nat) : StronglySorted lt l -> NoDup l.
Proof.
  induction 1 as [|a l Hs IH Ha]; constructor; [|exact IH].
  intros Hin. rewrite Forall_forall in Ha. specialize (Ha a Hin). lia.
Qed.

Lemma increasing_full (l : list nat) (n : nat) :
  StronglySorted lt l -> Forall (fun i => i < n) l -> List.length l = n ->
  l = seq 0 n.
Proof.
  intros Hs Hb Hl. apply increasing_perm_eq; [exact Hs | apply seq_increasing|].
  apply NoDup_Permutation_bis.
  - now apply increasing_NoDup.
  - rewrite length_seq. lia.
  - intros i Hi. rewrite Forall_forall in Hb. apply in_seq.
    specialize (Hb i Hi). lia.
Qed.

Lemma map_nth_seq {A : Type} (d : A) (l : list A) :
  map (fun i => nth i l d) (seq 0 (List.length l)) = l.
Proof.
  induction l as [|x l IH]; [reflexivity|].
  cbn [List.length seq map nth]. f_equal.
  rewrite <- seq_shift, map_map. exact IH.
Qed.

(** X14: a text with at most [TOP_SENTENCES_FOR_REFINED_TEXT] sentences
    is summed up by all its sentences in their order, joined by one space,
    with a final ".". *)
Theorem few_sentences_all_kept (sim : string -> Q)
    (argsort : list Q -> list nat) (full_text : string) :
  let sentences := sentences_of full_text in
  sentences <> [] ->
  List.length sentences <= TOP_SENTENCES_FOR_REFINED_TEXT ->
  is_argsort (map sim sentences) (argsort (map sim sentences)) = true ->
  generate_refined_text sim argsort full_text
  = Some (PyStr.join " " sentences ++ ".").
Proof.
  intros sentences Hne Hfew Hv.
  rewrite (generate_refined_text_eq sim argsort full_text Hne Hv).
  fold sentences.
  destruct (top_indices_spec sim argsort sentences Hv) as [Hl [Hs [Hb _]]].
  rewrite Nat.min_r in Hl by exact Hfew.
  rewrite (increasing_full _ _ Hs Hb Hl), map_nth_seq. reflexivity.
Qed.

Lemma few_sentences_all_kept_witness :
  let sentences := sentences_of "S4. S1" in
  sentences <> []
  /\ List.length sentences <= TOP_SENTENCES_FOR_REFINED_TEXT
  /\ is_argsort (map sample_sim sentences)
                (argsort_stable (map sample_sim sentences)) = true
  /\ generate_refined_text sample_sim argsort_stable "S4. S1"
     = Some (PyStr.join " " sentences ++ ".").
Proof.
  split; [discriminate|]. split; [vm_compute; lia|]. split; [reflexivity|].
  apply (few_sentences_all_kept sample_sim argsort_stable "S4. S1");
    [discriminate | vm_compute; lia | reflexivity].
Defined.

Lemma contains_app (c : ascii) (a b : string) :
  contains c (a ++ b) = contains c a || contains c b.
Proof.
  induction a as [|x a IH]; simpl; [reflexivity|].
  rewrite IH. now rewrite orb_assoc.
Qed.

Lemma contains_join (c : ascii) (sep : string) (l : list string) :
  contains c sep = false ->
  Forall (fun s => contains c s = false) l ->
  contains c (PyStr.join sep l) = false.
Proof.
  intros Hsep. unfold PyStr.join. induction 1 as [|x l Hx Hl IH]; [reflexivity|].
  destruct l as [|y l]; [exact Hx|].
  change (String.concat sep (x :: y :: l))
    with (x ++ sep ++ String.concat sep (y :: l)).
  rewrite !contains_app, Hx, Hsep, IH. reflexivity.
Qed.

(** X15: the summary is empty exactly when the text has no sentence;
    otherwise it is a text that is not empty and holds no full stop,
    followed by the one full stop of the summary. *)
Theorem summary_has_one_stop (sim : string -> Q)
    (argsort : list Q -> list nat) (full_text : string) :
  let sentences := sentences_of full_text in
  (sentences <> [] ->
   is_argsort (map sim sentences) (argsort (map sim sentences)) = true) ->
  exists summary,
    generate_refined_text sim argsort full_text = Some summary
    /\ (summary = "" <-> sentences = [])
    /\ (sentences <> [] ->
        exists body, summary = body ++ "."
                     /\ PyStr.truthy body = true
                     /\ contains "." body = false).
Proof.
  intros sentences Hv.
  assert (Hc : sentences = [] \/ sentences <> []).
  { destruct sentences; [now left | right; discriminate]. }
  destruct Hc as [He | Hne].
  - exists "". unfold generate_refined_text. fold sentences. rewrite He.
    split; [reflexivity|]. split; [tauto | congruence].
  - specialize (Hv Hne).
    rewrite (generate_refined_text_eq sim argsort full_text Hne Hv).
    fold sentences.
    destruct (top_indices_spec sim argsort sentences Hv) as [Hl [_ [Hb _]]].
    set (top := top_indices sim argsort sentences) in *.
    set (body := PyStr.join " " (map (fun i => nth i sentences "") top)).
    assert (Hpicked : Forall (fun s => In s sentences)
                             (map (fun i => nth i sentences "") top)).
    { apply Forall_map. revert Hb. apply Forall_impl. intros i Hi.
      now apply nth_In. }
    assert (Hbody : PyStr.truthy body = true /\ contains "." body = false).
    { split.
      - unfold body. destruct top as [|i top'].
        + simpl in Hl. destruct sentences; [congruence | discriminate Hl].
        + cbn [map]. apply join_truthy.
          apply (sentences_of_truthy full_text).
          inversion Hpicked; subst. assumption.
      - unfold body. apply contains_join; [reflexivity|].
        revert Hpicked. apply Forall_impl. intros s Hs.
        now apply (sentences_of_clean full_text). }
    exists (body ++ "."). split; [reflexivity|]. split.
    + split; [|congruence]. intros H. destruct body; discriminate H.
    + intros _. exists body. tauto.
Qed.

Lemma summary_has_one_stop_witness :
  let sentences := sentences_of "S1. S2. S3. S4." in
  (sentences <> [] ->
   is_argsort (map sample_sim sentences)
              (argsort_stable (map sample_sim sentences)) = true)
  /\ exists summary,
       generate_refined_text sample_sim argsort_stable "S1. S2. S3. S4."
       = Some summary
       /\ (summary = "" <-> sentences = [])
       /\ (sentences <> [] ->
           exists body, summary = body ++ "."
                        /\ PyStr.truthy body = true
                        /\ contains "." body = false).
Proof.
  split; [intros _; reflexivity|].
  apply (summary_has_one_stop sample_sim argsort_stable "S1. S2. S3. S4.").
  intros _. reflexivity.
Defined.

Section SortedUnique.
Context {A : Type}.
Variable R : A -> A -> Prop.
Hypothesis R_asym : forall a b, R a b -> R b a -> False.

(** A list in strict order is fixed by its elements. *)
Lemma sorted_perm_unique (l1 l2 : list A) :
  StronglySorted R l1 -> StronglySorted R l2 -> Permutation l1 l2 ->
  l1 = l2.
Proof.
  revert l2. induction l1 as [|a l1 IH]; intros l2 H1 H2 Hp.
  - apply Permutation_nil in Hp. now subst.
  - destruct l2 as [|b l2].
    + apply Permutation_sym, Permutation_nil in Hp. discriminate Hp.
    + inversion H1 as [|? ? H1' Ha]; subst.
      inversion H2 as [|? ? H2' Hb]; subst.
      rewrite Forall_forall in Ha, Hb.
      assert (E : a = b).
      { assert (Hab : In a (b :: l2))
          by (apply (Permutation_in _ Hp); now left).
        assert (Hba : In b (a :: l1))
          by (apply (Permutation_in _ (Permutation_sym Hp)); now left).
        destruct Hab as [Hab | Hab]; [now symmetry|].
        destruct Hba as [Hba | Hba]; [exact Hba|].
        exfalso. apply (R_asym a b); [now apply Ha | now apply Hb]. }
      subst b. f_equal. apply IH; try assumption.
      now apply Permutation_cons_inv in Hp.
Qed.

End SortedUnique.

(** Values that differ in pairs have one argsort only. *)
Lemma argsort_unique (values : list Q) (order1 order2 : list nat) :
  (forall i j, i < List.length values -> j < List.length values -> i <> j ->
     ~ (nth i values 0 == nth j values 0)%Q) ->
  is_argsort values order1 = true -> is_argsort values order2 = true ->
  order1 = order2.
Proof.
  intros Hd H1 H2.
  apply is_argsort_spec in H1, H2.
  destruct H1 as [Hp1 Hs1], H2 as [Hp2 Hs2].
  assert (Hstrict : forall order,
            Permutation order (seq 0 (List.length values)) ->
            StronglySorted
              (fun i j => (nth i values 0 <= nth j values 0)%Q) order ->
            StronglySorted
              (fun i j => (nth i values 0 < nth j values 0)%Q) order).
  { intros order Hp Hs.
    assert (Hnd : NoDup order)
      by (apply (Permutation_NoDup (Permutation_sym Hp)), seq_NoDup).
    assert (Hb : forall i, In i order -> i < List.length values).
    { intros i Hi. apply (Permutation_in _ Hp), in_seq in Hi. lia. }
    clear Hp. induction Hs as [|a l Hs IH Ha]; [constructor|].
    inversion Hnd as [|? ? Hna Hnd']; subst.
    constructor.
    - apply IH; [exact Hnd'|]. intros i Hi. apply Hb. now right.
    - rewrite Forall_forall in Ha |- *. intros b Hin.
      specialize (Ha b Hin).
      assert (Hne : a <> b) by (intros ->; contradiction).
      assert (Hq : ~ (nth a values 0 == nth b values 0)%Q).
      { apply Hd; [apply Hb; now left | apply Hb; now right | exact Hne]. }
      lra. }
  apply (sorted_perm_unique
           (fun i j => (nth i values 0 < nth j values 0)%Q)).
  - intros a b Hab Hba. lra.
  - now apply Hstrict.
  - now apply Hstrict.
  - now rewrite Hp1, Hp2.
Qed.

(** X16: when no two sentences have the same similarity, the summary
    does not depend on how argsort orders equal values: any two valid
    answers of argsort give the same summary. *)
Theorem summary_independent_of_ties (sim : string -> Q)
    (argsort1 argsort2 : list Q -> list nat) (full_text : string) :
  let sims := map sim (sentences_of full_text) in
  (forall i j, i < List.length sims -> j < List.length sims -> i <> j ->
     ~ (nth i sims 0 == nth j sims 0)%Q) ->
  is_argsort sims (argsort1 sims) = true ->
  is_argsort sims (argsort2 sims) = true ->
  generate_refined_text sim argsort1 full_text
  = generate_refined_text sim argsort2 full_text.
Proof.
  intros sims Hd H1 H2.
  pose proof (argsort_unique sims _ _ Hd H1 H2) as E.
  unfold generate_refined_text, top_indices. fold sims. now rewrite E.
Qed.

Example argsort_answers_differ_on_ties :
  argsort_stable [1 # 2; 1 # 2] = [0; 1]
  /\ argsort_ties_reversed [1 # 2; 1 # 2] = [1; 0]
  /\ is_argsort [1 # 2; 1 # 2] [0; 1] = true
  /\ is_argsort [1 # 2; 1 # 2] [1; 0] = true.
Proof. repeat split. Qed.

Lemma summary_independent_of_ties_witness :
  let sims := map sample_sim (sentences_of "S1. S2. S3. S4.") in
  (forall i j, i < List.length sims -> j < List.length sims -> i <> j ->
     ~ (nth i sims 0 == nth j sims 0)%Q)
  /\ is_argsort sims (argsort_stable sims) = true
  /\ is_argsort sims (argsort_ties_reversed sims) = true
  /\ generate_refined_text sample_sim argsort_stable "S1. S2. S3. S4."
     = generate_refined_text sample_sim argsort_ties_reversed
                             "S1. S2. S3. S4.".
Proof.
  assert (Hd : forall i j,
             i < 4 -> j < 4 -> i <> j ->
             ~ (nth i (map sample_sim (sentences_of "S1. S2. S3. S4.")) 0
                == nth j (map sample_sim (sentences_of "S1. S2. S3. S4.")) 0)%Q).
  { intros i j Hi Hj Hne.
    destruct i as [|[|[|[|i]]]]; try lia;
      destruct j as [|[|[|[|j]]]]; try lia;
      intros H; vm_compute in H; discriminate H. }
  split; [exact Hd|]. split; [reflexivity|]. split; [reflexivity|].
  apply (summary_independent_of_ties sample_sim argsort_stable
           argsort_ties_reversed "S1. S2. S3. S4.");
    [exact Hd | reflexivity | reflexivity].
Defined.

(** ** The run *)

Section RunFacts.
Variable similarity : string -> string -> Q.
Variable argsort : list Q -> list nat.

(** The entries that the output loop appends, item by item. *)
Lemma output_loop_entries (query : string)
    (items : list (nat * (key * section)))
    (es es' : list extracted_section) (an an' : list subsection_analysis) :
  fold_left (output_step similarity argsort query) items (Some (es, an))
  = Some (es', an') ->
  exists es1 an1,
    es' = (es ++ es1)%list /\ an' = (an ++ an1)%list
    /\ Forall2 (fun it e =>
                  e = mkExtracted (fst (fst (snd it))) (snd (fst (snd it)))
                        ("Content from page "
                         ++ PyStr.of_nat (snd (fst (snd it))))
                        (fst it))
               items es1
    /\ Forall2 (fun it a =>
                  analysis_key a = fst (snd it)
                  /\ generate_refined_text (similarity query) argsort
                       (sec_text (snd (snd it)))
                     = Some (refined_text a))
               items an1.
Proof.
  revert es an. induction items as [|it items IH]; intros es an H.
  - simpl in H. inversion H; subst. exists [], [].
    rewrite !app_nil_r. repeat split; constructor.
  - simpl in H.
    destruct (generate_refined_text (similarity query) argsort
                (sec_text (snd (snd it)))) as [refined|] eqn:Er.
    + apply IH in H. destruct H as [es1 [an1 [H1 [H2 [H3 H4]]]]].
      eexists (_ :: es1), (_ :: an1).
      rewrite <- !app_assoc in H1, H2. simpl in H1, H2.
      split; [exact H1|]. split; [exact H2|]. split.
      * constructor; [reflexivity | exact H3].
      * constructor; [|exact H4]. split; [|exact Er].
        unfold analysis_key. simpl. now destruct (fst (snd it)).
    + rewrite output_loop_raised in H. discriminate H.
Qed.

End RunFacts.

Lemma Forall2_map_left {A B C : Type} (f : A -> B) (P : B -> C -> Prop)
    (l : list A) (r : list C) :
  Forall2 (fun x y => P (f x) y) l r -> Forall2 P (map f l) r.
Proof. induction 1; simpl; constructor; assumption. Qed.

Lemma ranked_sections (sections : sections_t) :
  map snd (ranked sections) = firstn TOP_SECTIONS sections.
Proof. unfold ranked. apply combine_seq_snd. Qed.

(** X19: in the output that a run writes, entry [i] of "Extracted
    Section" names the document and the page of the section ranked [i],
    with the title "Content from page " and the page number, and entry [i]
    of "Sub-section Analysis" carries the summary of the text of that
    section. *)
Theorem output_entries_describe_sections
    (similarity : string -> string -> Q) (argsort : list Q -> list nat)
    (inp : inputs) (path : string) (out : output) :
  In (WriteJson path out) (run_events (main similarity argsort inp)) ->
  exists query chunks,
    generate_intelligent_query (persona inp) (job inp) = Some query
    /\ parse_and_chunk_documents (docs_dir inp) = Some chunks
    /\ let top :=
         firstn TOP_SECTIONS (sorted_sections similarity query chunks) in
       Forall2 (fun sec e =>
                  document e = fst (fst sec)
                  /\ page_number e = snd (fst sec)
                  /\ section_title e
                     = "Content from page " ++ PyStr.of_nat (snd (fst sec)))
               top (Extracted_Section out)
       /\ Forall2 (fun sec a =>
                     a_document a = fst (fst sec)
                     /\ a_page_number a = snd (fst sec)
                     /\ generate_refined_text (similarity query) argsort
                          (sec_text (snd sec))
                        = Some (refined_text a))
                  top (Sub_section_Analysis out).
Proof.
  intros Hin. apply main_written_output in Hin.
  destruct Hin as [query [chunks [names [Hq [Hp [_ [_ [_ [_ Hf]]]]]]]]].
  exists query, chunks. split; [exact Hq|]. split; [exact Hp|].
  intros top. apply output_loop_entries in Hf.
  destruct Hf as [es1 [an1 [H1 [H2 [H3 H4]]]]]. simpl in H1, H2.
  rewrite H1, H2. unfold top. rewrite <- ranked_sections. split.
  - apply Forall2_map_left. revert H3. apply Forall2_impl.
    intros it e ->. simpl. auto.
  - apply Forall2_map_left. revert H4. apply Forall2_impl.
    intros [i [[doc page] data]] a [Hk Hr]. unfold analysis_key in Hk.
    simpl in *. inversion Hk; subst. auto.
Qed.

Lemma output_entries_describe_sections_witness :
  In (WriteJson "out/result.json" sample_output)
     (run_events (main sample_similarity argsort_stable sample_inputs))
  /\ exists query chunks,
       generate_intelligent_query (persona sample_inputs)
                                  (job sample_inputs) = Some query
       /\ parse_and_chunk_documents (docs_dir sample_inputs) = Some chunks
       /\ let top :=
            firstn TOP_SECTIONS
                   (sorted_sections sample_similarity query chunks) in
          Forall2 (fun sec e =>
                     document e = fst (fst sec)
                     /\ page_number e = snd (fst sec)
                     /\ section_title e
                        = "Content from page "
                          ++ PyStr.of_nat (snd (fst sec)))
                  top (Extracted_Section sample_output)
          /\ Forall2 (fun sec a =>
                        a_document a = fst (fst sec)
                        /\ a_page_number a = snd (fst sec)
                        /\ generate_refined_text (sample_similarity query)
                             argsort_stable (sec_text (snd sec))
                           = Some (refined_text a))
                     top (Sub_section_Analysis sample_output).
Proof.
  split; [vm_compute; right; left; reflexivity|].
  apply (output_entries_describe_sections sample_similarity argsort_stable
           sample_inputs "out/result.json" sample_output).
  vm_compute. right. left. reflexivity.
Defined.

Lemma NoDup_firstn {A : Type} (n : nat) (l : list A) :
  NoDup l -> NoDup (firstn n l).
Proof.
  intros H. rewrite <- (firstn_skipn n l) in H.
  now apply NoDup_app_remove_r in H.
Qed.

Lemma In_firstn {A : Type} (n : nat) (l : list A) (x : A) :
  In x (firstn n l) -> In x l.
Proof.
  intros H. rewrite <- (firstn_skipn n l). apply in_or_app. now left.
Qed.

(** The keys of the ranked sections: each once, each the key of a chunk. *)
Lemma sorted_sections_keys (similarity : string -> string -> Q)
    (query : string) (chunks : list chunk) :
  NoDup (map fst (sorted_sections similarity query chunks))
  /\ forall k, In k (map fst (sorted_sections similarity query chunks)) ->
               exists c, In c chunks /\ (doc_name c, page_num c) = k.
Proof.
  unfold sorted_sections, sort_sections, sorted_reverse.
  set (scored := score_chunks similarity query chunks).
  assert (Hp : Permutation
                 (map fst (stable_sort
                             (fun x y : key * section =>
                                Qltb (max_score (snd x)) (max_score (snd y)))
                             (group_sections scored)))
                 (map fst (group_sections scored))).
  { apply Permutation_map, stable_sort_perm. }
  split.
  - apply (Permutation_NoDup (Permutation_sym Hp)), group_sections_NoDup.
  - intros k Hk. apply (Permutation_in _ Hp) in Hk.
    apply group_sections_keys, first_seen_exists in Hk.
    destruct Hk as [sc [Hsc Hkey]]. unfold scored, score_chunks in Hsc.
    apply in_map_iff in Hsc. destruct Hsc as [c [<- Hc]].
    exists c. split; [exact Hc | exact Hkey].
Qed.

(** X20: the output never lists a section twice, and every section it
    lists is a page with text of a PDF of the directory: the document is
    a file of the listing whose name ends in ".pdf" and the page number is
    one of its pages. *)
Theorem output_sections_distinct_and_real
    (similarity : string -> string -> Q) (argsort : list Q -> list nat)
    (inp : inputs) (path : string) (out : output) :
  In (WriteJson path out) (run_events (main similarity argsort inp)) ->
  NoDup (map extracted_key (Extracted_Section out))
  /\ Forall (fun e =>
               exists files pages page_text,
                 docs_dir inp = Some files
                 /\ In (document e, Some pages) files
                 /\ is_pdf (document e) = true
                 /\ 1 <= page_number e <= List.length pages
                 /\ nth_error pages (page_number e - 1) = Some page_text
                 /\ blank page_text = false)
            (Extracted_Section out).
Proof.
  intros Hin. apply main_written_output in Hin.
  destruct Hin as [query [chunks [names [Hq [Hp [_ [_ [_ [_ Hf]]]]]]]]].
  apply output_loop in Hf.
  destruct Hf as [es1 [an1 [H1 [_ [H3 _]]]]]. simpl in H1. subst es1.
  rewrite <- (map_map snd fst), ranked_sections in H3.
  destruct (sorted_sections_keys similarity query chunks) as [Hnd Hreal].
  split.
  - rewrite H3, <- firstn_map. now apply NoDup_firstn.
  - apply Forall_forall. intros e He.
    assert (Hk : In (extracted_key e)
                    (map fst (sorted_sections similarity query chunks))).
    { apply (in_map extracted_key) in He. rewrite H3, <- firstn_map in He.
      now apply In_firstn in He. }
    apply Hreal in Hk. destruct Hk as [c [Hc Hkey]].
    unfold extracted_key in Hkey. inversion Hkey as [[Hd Hpg]].
    destruct (docs_dir inp) as [files|]; [|discriminate Hp]. simpl in Hp.
    apply (in_chunk_files files chunks c Hp) in Hc.
    destruct Hc as [pages [Hf [Hpdf Hc]]].
    apply in_chunk_document in Hc. destruct Hc as [_ [Hle [t [Hn Hx]]]].
    exists files, pages, t.
    assert (Hlt : page_num c - 1 < List.length pages).
    { apply nth_error_Some. congruence. }
    repeat split; try assumption; try lia.
    unfold blank. unfold chunk_texts in Hx.
    destruct (PyStr.truthy (PyStr.strip t)); [reflexivity | contradiction].
Qed.

Lemma output_sections_distinct_and_real_witness :
  In (WriteJson "out/result.json" sample_output)
     (run_events (main sample_similarity argsort_stable sample_inputs))
  /\ NoDup (map extracted_key (Extracted_Section sample_output))
  /\ Forall (fun e =>
               exists files pages page_text,
                 docs_dir sample_inputs = Some files
                 /\ In (document e, Some pages) files
                 /\ is_pdf (document e) = true
                 /\ 1 <= page_number e <= List.length pages
                 /\ nth_error pages (page_number e - 1) = Some page_text
                 /\ blank page_text = false)
            (Extracted_Section sample_output).
Proof.
  split; [vm_compute; right; left; reflexivity|].
  apply (output_sections_distinct_and_real sample_similarity argsort_stable
           sample_inputs "out/result.json" sample_output).
  vm_compute. right. left. reflexivity.
Defined.

(** ** The directory of the output *)

Lemma upto_last_slash_none (p : string) :
  contains "/" p = false -> PyPath.upto_last_slash p = "".
Proof.
  induction p as [|c p IH]; [reflexivity|].
  simpl. intros H. apply orb_false_iff in H. destruct H as [Hc Hp].
  rewrite (IH Hp), Hc. reflexivity.
Qed.

Lemma upto_last_slash_prefix (p : string) :
  exists rest, p = PyPath.upto_last_slash p ++ rest.
Proof.
  induction p as [|c p [rest IH]]; [exists ""; reflexivity|].
  simpl. destruct (PyPath.upto_last_slash p) as [|c' h] eqn:E.
  - destruct (Ascii.eqb c "/").
    + exists p. reflexivity.
    + exists (String c p). reflexivity.
  - exists rest. simpl. simpl in IH. now rewrite <- IH.
Qed.

Lemma rstrip_slashes_prefix (p : string) :
  exists rest, p = PyPath.rstrip_slashes p ++ rest.
Proof.
  induction p as [|c p [rest IH]]; [exists ""; reflexivity|].
  simpl. destruct (PyPath.rstrip_slashes p) as [|c' h] eqn:E.
  - destruct (Ascii.eqb c "/").
    + exists (String c p). reflexivity.
    + exists p. reflexivity.
  - exists rest. simpl. simpl in IH. now rewrite <- IH.
Qed.

Lemma dirname_prefix (p : string) :
  exists rest, p = PyPath.dirname p ++ rest.
Proof.
  unfold PyPath.dirname.
  destruct (upto_last_slash_prefix p) as [r1 H1].
  destruct (PyStr.truthy _ && negb _); [|now exists r1].
  destruct (rstrip_slashes_prefix (PyPath.upto_last_slash p)) as [r2 H2].
  exists (r2 ++ r1). rewrite <- append_assoc, <- H2. exact H1.
Qed.

Lemma dirname_none (p : string) :
  contains "/" p = false -> PyPath.dirname p = "".
Proof.
  intros H. unfold PyPath.dirname. now rewrite (upto_last_slash_none p H).
Qed.

(** X21: a run makes a directory only for an output path with a slash
    in it, and the directory it makes is the start of the output path: an
    output path that is a bare file name makes no directory. *)
Theorem makedirs_only_for_a_directory_part
    (similarity : string -> string -> Q) (argsort : list Q -> list nat)
    (inp : inputs) :
  let events := run_events (main similarity argsort inp) in
  (contains "/" (output_file inp) = false ->
   existsb is_makedirs events = false)
  /\ (forall dir, In (MakeDirs dir) events ->
        contains "/" (output_file inp) = true
        /\ dir <> ""
        /\ exists rest, output_file inp = dir ++ rest).
Proof.
  intros events.
  assert (Hmade : forall dir, In (MakeDirs dir) events ->
                  dir = PyPath.dirname (output_file inp)
                  /\ PyStr.truthy dir = true).
  { intros dir Hin. apply main_events in Hin.
    destruct Hin as [q [cs [ns [es [an [_ [_ [_ [_ [_ [_ [_ Hin]]]]]]]]]]]].
    apply save_output_made in Hin. tauto. }
  split.
  - intros Hn. destruct (existsb is_makedirs events) eqn:E; [|reflexivity].
    apply existsb_exists in E. destruct E as [[dir|p o] [Hin He]];
      [|discriminate He].
    destruct (Hmade dir Hin) as [-> Ht].
    rewrite (dirname_none _ Hn) in Ht. discriminate Ht.
  - intros dir Hin. destruct (Hmade dir Hin) as [-> Ht].
    split; [|split].
    + destruct (contains "/" (output_file inp)) eqn:Ec; [reflexivity|].
      rewrite (dirname_none _ Ec) in Ht. discriminate Ht.
    + intros E. rewrite E in Ht. discriminate Ht.
    + apply dirname_prefix.
Qed.

(** ** The first entry *)

(** X22: the first entry of "Extracted Section" has rank 1 and is about
    a section of greatest [max_score]: no section of the run has a greater
    one. *)
Theorem first_entry_is_a_best_section
    (similarity : string -> string -> Q) (argsort : list Q -> list nat)
    (inp : inputs) (path : string) (out : output)
    (e : extracted_section) :
  In (WriteJson path out) (run_events (main similarity argsort inp)) ->
  hd_error (Extracted_Section out) = Some e ->
  exists query chunks,
    generate_intelligent_query (persona inp) (job inp) = Some query
    /\ parse_and_chunk_documents (docs_dir inp) = Some chunks
    /\ let sections := sorted_sections similarity query chunks in
       importance_rank e = 1
       /\ exists s,
            In (extracted_key e, s) sections
            /\ Forall (fun x => (max_score (snd x) <= max_score s)%Q)
                      sections.
Proof.
  intros Hin He. apply main_written_output in Hin.
  destruct Hin as [query [chunks [names [Hq [Hp [_ [_ [_ [_ Hf]]]]]]]]].
  exists query, chunks. split; [exact Hq|]. split; [exact Hp|].
  intros sections. fold sections in Hf. apply output_loop in Hf.
  destruct Hf as [es1 [an1 [H1 [_ [H3 [H4 _]]]]]]. simpl in H1. subst es1.
  rewrite <- (map_map snd fst), ranked_sections in H3.
  unfold ranked in H4. rewrite combine_seq_fst in H4.
  destruct (Extracted_Section out) as [|e0 es]; [discriminate He|].
  simpl in He. inversion He; subst e0. clear He.
  pose proof (sort_sections_order
                (score_chunks similarity query chunks)) as Hs.
  fold (sorted_sections similarity query chunks) in Hs.
  fold sections in Hs.
  destruct sections as [|[k s] rest] eqn:Es.
  - simpl in H3. destruct TOP_SECTIONS; discriminate H3.
  - simpl in H3, H4. inversion H3 as [[Hk Hrest]].
    inversion H4 as [[Hr Hrs]]. split; [reflexivity|].
    exists s. rewrite Hk. split; [now left|].
    inversion Hs as [|? ? _ Hall]; subst.
    constructor; [simpl; lra|].
    revert Hall. apply Forall_impl. intros x [H | [H _]]; simpl in *; lra.
Qed.

Lemma first_entry_is_a_best_section_witness :
  In (WriteJson "out/result.json" sample_output)
     (run_events (main sample_similarity argsort_stable sample_inputs))
  /\ hd_error (Extracted_Section sample_output)
     = Some (mkExtracted "a.pdf" 3 "Content from page 3" 1)
  /\ exists query chunks,
       generate_intelligent_query (persona sample_inputs)
                                  (job sample_inputs) = Some query
       /\ parse_and_chunk_documents (docs_dir sample_inputs) = Some chunks
       /\ let sections := sorted_sections sample_similarity query chunks in
          importance_rank (mkExtracted "a.pdf" 3 "Content from page 3" 1) = 1
          /\ exists s,
               In (extracted_key
                     (mkExtracted "a.pdf" 3 "Content from page 3" 1), s)
                  sections
               /\ Forall (fun x => (max_score (snd x) <= max_score s)%Q)
                         sections.
Proof.
  split; [vm_compute; right; left; reflexivity|].
  split; [reflexivity|].
  apply (first_entry_is_a_best_section sample_similarity argsort_stable
           sample_inputs "out/result.json" sample_output).
  - vm_compute. right. left. reflexivity.
  - reflexivity.
Defined.
